(** * A shallow embedding of [toolz.functoolz.curry] and its call-signature
    classifiers ([is_valid_args], [is_partial_args], [has_varargs]),
    following src/toolz/functoolz.py, together with the part of
    CPython's [inspect.Signature._bind] (3.8 - 3.12) that the
    classifiers call through [Signature.bind] / [Signature.bind_partial]. *)

From Stdlib Require Import String Ascii ZArith List Bool Lia.
From stdpp Require Import base gmap strings list fin_maps.
Import ListNotations.
Open Scope Z_scope.
#[local] Set Warnings "-register-all".

(** ** Python values passed as arguments *)

Inductive V :=
| VInt (z : Z)
| VStr (s : string)
| VTuple (l : list V)
| VList (l : list V)
| VNone
| VObj (oid : nat).            (** a plain instance: [==] and [hash] by identity *)

(** Keyword-argument dicts.  Only key membership and lookup matter to the
    code modelled here, so a dict is a [gmap]. *)
Abbreviation kwdict := (gmap string V).

Inductive exn :=
| TypeError (msg : string)
| OtherError (name msg : string).

Inductive outcome :=
| ORet (v : V)
| ORaise (e : exn).

(** ** [inspect.Parameter] and [inspect.Signature] *)

Inductive kind :=
| POSITIONAL_ONLY
| POSITIONAL_OR_KEYWORD
| VAR_POSITIONAL
| KEYWORD_ONLY
| VAR_KEYWORD.

Definition kind_eqb (a b : kind) : bool :=
  match a, b with
  | POSITIONAL_ONLY, POSITIONAL_ONLY
  | POSITIONAL_OR_KEYWORD, POSITIONAL_OR_KEYWORD
  | VAR_POSITIONAL, VAR_POSITIONAL
  | KEYWORD_ONLY, KEYWORD_ONLY
  | VAR_KEYWORD, VAR_KEYWORD => true
  | _, _ => false
  end.

Record param := mkParam {
  p_name : string;
  p_kind : kind;
  p_has_default : bool           (** [param.default is not param.empty] *)
}.

Definition signature := list param.

(** Values in [BoundArguments.arguments]. *)
Inductive bval :=
| BArg (v : V)
| BStar (vs : list V)              (** the tuple bound to [*args] *)
| BStarStar (kw : kwdict).         (** the dict bound to [**kwargs] *)

Abbreviation arguments := (gmap string bval).

Definition in_kwargs (name : string) (kw : kwdict) : bool :=
  bool_decide (is_Some (kw !! name)).

(** First loop of [Signature._bind]: positional arguments against the
    parameters.  Every iteration calls [next(parameters)], so the
    recursion is on the parameter list.  On [break] it returns the
    parameters still to be scanned by the keyword loop
    ([itertools.chain(parameters_ex, parameters)]). *)
Fixpoint bind_pos (partial : bool) (kw : kwdict) (ps : signature)
    (args : list V) (acc : arguments) : option (signature * arguments) :=
  match ps with
  | [] =>
      match args with
      | [] => Some ([], acc)
      | _ :: _ => None                      (* too many positional arguments *)
      end
  | p :: ps' =>
      match args with
      | [] =>
          if kind_eqb (p_kind p) VAR_POSITIONAL then Some (ps', acc)
          else if in_kwargs (p_name p) kw then
            if kind_eqb (p_kind p) POSITIONAL_ONLY then None
            else Some (p :: ps', acc)
          else if kind_eqb (p_kind p) VAR_KEYWORD || p_has_default p then
            Some (p :: ps', acc)
          else if partial then Some (p :: ps', acc)
          else None                         (* missing a required argument *)
      | a :: args' =>
          if kind_eqb (p_kind p) VAR_KEYWORD || kind_eqb (p_kind p) KEYWORD_ONLY
          then None                         (* too many positional arguments *)
          else if kind_eqb (p_kind p) VAR_POSITIONAL then
            Some (ps', <[p_name p := BStar (a :: args')]> acc)
          else if in_kwargs (p_name p) kw && negb (kind_eqb (p_kind p) POSITIONAL_ONLY)
          then None                         (* multiple values for argument *)
          else bind_pos partial kw ps' args' (<[p_name p := BArg a]> acc)
      end
  end.

(** Second loop of [Signature._bind]: the remaining parameters take
    keyword arguments ([kwargs.pop]); what is left goes to [**kwargs]. *)
Fixpoint bind_kw (partial : bool) (ps : signature) (kw : kwdict)
    (kwargs_param : option string) (acc : arguments) : option arguments :=
  match ps with
  | [] =>
      if bool_decide (kw = ∅) then Some acc
      else match kwargs_param with
           | Some n => Some (<[n := BStarStar kw]> acc)
           | None => None                   (* got an unexpected keyword argument *)
           end
  | p :: ps' =>
      if kind_eqb (p_kind p) VAR_KEYWORD then bind_kw partial ps' kw (Some (p_name p)) acc
      else if kind_eqb (p_kind p) VAR_POSITIONAL then bind_kw partial ps' kw kwargs_param acc
      else match kw !! p_name p with
           | None =>
               if negb partial && negb (p_has_default p) then None
               else bind_kw partial ps' kw kwargs_param acc
           | Some v =>
               if kind_eqb (p_kind p) POSITIONAL_ONLY then None
               else bind_kw partial ps' (delete (p_name p) kw) kwargs_param
                      (<[p_name p := BArg v]> acc)
           end
  end.

(** [Signature._bind(args, kwargs, partial=partial)]; [None] is the
    [TypeError] it raises. *)
Definition sig_bind (partial : bool) (s : signature) (args : list V) (kw : kwdict)
    : option arguments :=
  match bind_pos partial kw s args ∅ with
  | None => None
  | Some (rest, acc) => bind_kw partial rest kw None acc
  end.

Definition has_var_positional (s : signature) : bool :=
  existsb (fun p => kind_eqb (p_kind p) VAR_POSITIONAL) s.

(** ** Callables *)

(** [inspect.signature(func)]: a signature, or the [ValueError] /
    [TypeError] it raises for callables it cannot introspect. *)
Inductive sig_outcome :=
| SigOk (s : signature)
| SigValueError
| SigTypeError.

(** The callables a curry may wrap.  Each event list returned by a call
    records the identities of the function bodies that ran. *)
Inductive pyfunc :=
| PFun (fid : nat) (modname qualname : string) (s : signature)
       (body : arguments -> outcome)
    (** a [def] function: the interpreter binds the arguments to [s]
        (raising [TypeError] before the body on a mismatch), then runs the body *)
| PBuiltin (fid : nat) (modname qualname : string) (insp : sig_outcome)
       (sig_get : bool) (cmeth : option (nat * nat))
       (call : list V -> kwdict -> outcome)
    (** a native callable; [sig_get]: it has a [__signature__] with [__get__];
        [cmeth]: for a [builtin_function_or_method] bound to an object, the
        identities of its [__self__] and of its C function *)
| PMethod (mid : nat) (self : nat) (f : pyfunc)
    (** a bound method object [self.f] *)
| PObj (oid : nat) (is_callable : bool) (func_attr : option pyfunc)
       (args_attr : option V) (keywords_attr : option (option kwdict))
       (insp : sig_outcome) (call : list V -> kwdict -> list nat * outcome)
    (** any other object; [func_attr], [args_attr], [keywords_attr] are its
        attributes [func], [args], [keywords] when present ([Some None] for a
        [keywords] attribute that is [None]) *)
| PCompose (oid : nat) (first next : pyfunc) (rest : list pyfunc).
    (** a [Compose] instance (functoolz.py 630-723) with [self.first = first]
        and [self.funcs = (next, *rest)], as [compose] builds it from two or
        more functions *)

Definition py_id (f : pyfunc) : nat :=
  match f with
  | PFun i _ _ _ _ | PBuiltin i _ _ _ _ _ _ | PMethod i _ _ | PObj i _ _ _ _ _ _
  | PCompose i _ _ _ => i
  end.

Definition py_callable (f : pyfunc) : bool :=
  match f with
  | PObj _ c _ _ _ _ _ => c
  | _ => true
  end.

(** [inspect._signature_bound_method]: drop the first positional parameter. *)
Definition bound_method_sig (s : signature) : sig_outcome :=
  match s with
  | [] => SigValueError                              (* invalid method signature *)
  | p :: ps =>
      match p_kind p with
      | VAR_KEYWORD | KEYWORD_ONLY => SigValueError
      | POSITIONAL_OR_KEYWORD | POSITIONAL_ONLY => SigOk ps
      | VAR_POSITIONAL => SigOk s
      end
  end.

Fixpoint inspect_signature (f : pyfunc) : sig_outcome :=
  match f with
  | PFun _ _ _ s _ => SigOk s
  | PBuiltin _ _ _ insp _ _ _ => insp
  | PMethod _ _ g =>
      match inspect_signature g with
      | SigOk s => bound_method_sig s
      | e => e
      end
  | PObj _ _ _ _ _ insp _ => insp
  | PCompose _ first next rest =>
      (* [Compose.__signature__] (717-721): [inspect.signature(self.first)],
         then [inspect.signature(self.funcs[-1])] for the return annotation;
         the parameters are those of [first] *)
      let fix last_sig (gs : list pyfunc) : option sig_outcome :=
        match gs with
        | [] => None
        | g :: gs' =>
            match last_sig gs' with
            | Some r => Some r
            | None => Some (inspect_signature g)
            end
        end in
      match inspect_signature first with
      | SigOk s =>
          match match last_sig rest with
                | Some r => r
                | None => inspect_signature next
                end with
          | SigOk _ => SigOk s
          | e => e
          end
      | e => e
      end
  end.

(** Calling [func] with positional and keyword arguments. *)
Fixpoint py_call (f : pyfunc) (args : list V) (kw : kwdict) : list nat * outcome :=
  match f with
  | PFun i _ _ s body =>
      match sig_bind false s args kw with
      | Some b => ([i], body b)
      | None => ([], ORaise (TypeError "arguments do not match the signature"))
      end
  | PBuiltin i _ _ _ _ _ call => ([i], call args kw)
  | PMethod _ self g => py_call g (VObj self :: args) kw
  | PObj _ _ _ _ _ _ call => call args kw
  | PCompose _ first next rest =>
      (* [Compose.__call__] (649-653): [ret] is [self.first] called with the
         arguments, then [ret = f(ret)] for each [f] in [self.funcs] *)
      let fix run (v : V) (gs : list pyfunc) {struct gs} : list nat * outcome :=
        match gs with
        | [] => ([], ORet v)
        | g :: gs' =>
            let (t, o) := if py_callable g then py_call g [v] ∅
                          else ([], ORaise (TypeError "object is not callable")) in
            match o with
            | ORet v' => let (t', o') := run v' gs' in (t ++ t', o')
            | ORaise e => (t, ORaise e)
            end
        end in
      let (t, o) := if py_callable first then py_call first args kw
                    else ([], ORaise (TypeError "object is not callable")) in
      match o with
      | ORet v => let (t', o') := run v (next :: rest) in (t ++ t', o')
      | ORaise e => (t, ORaise e)
      end
  end.

(** ** The classifiers (functoolz.py 999-1126) *)

(** Tri-state results [True] / [False] / [None] as [option bool]. *)
Definition is_False (t : option bool) : bool :=
  match t with Some false => true | _ => false end.

Definition truthy (t : option bool) : bool :=
  match t with Some true => true | _ => false end.

Section Classifiers.

(** Modelled from the spec: the builtin-signature registry
    ([toolz._signatures.signatures], not in the sources), a static table
    keyed by callable identity that yields a signature for a registered
    opaque callable and nothing for any other. *)
Variable registry : nat -> option signature.

Definition in_registry (f : pyfunc) : bool := bool_decide (is_Some (registry (py_id f))).

(** Modelled from the spec: [_sigs._has_varargs], [_sigs._is_valid_args],
    [_sigs._is_partial_args] answer from the registry entry, [None] when
    the callable is not registered. *)
Definition sigs_has_varargs (f : pyfunc) : option bool :=
  match registry (py_id f) with
  | Some s => Some (has_var_positional s)
  | None => None
  end.

Definition sigs_is_valid_args (f : pyfunc) (args : list V) (kw : kwdict) : option bool :=
  match registry (py_id f) with
  | Some s => Some (bool_decide (is_Some (sig_bind false s args kw)))
  | None => None
  end.

Definition sigs_is_partial_args (f : pyfunc) (args : list V) (kw : kwdict) : option bool :=
  match registry (py_id f) with
  | Some s => Some (bool_decide (is_Some (sig_bind true s args kw)))
  | None => None
  end.

(** Modelled from the spec: [_sigs.signature_or_spec], the resolver:
    introspection first, then the registry, else unknown ([None]). *)
Definition signature_or_spec (f : pyfunc) : option signature :=
  match inspect_signature f with
  | SigOk s => Some s
  | _ => registry (py_id f)
  end.

Definition has_signature_get (f : pyfunc) : bool :=
  in_registry f &&
  match f with PBuiltin _ _ _ _ sg _ _ => sg | _ => false end.

(** [_check_sigspec_orig] (CPython: [_check_sigspec = _check_sigspec_orig]):
    either a signature to work on, or the value to return at once. *)
Inductive checked :=
| Checked (s : signature)
| Fallback (rv : option bool).

Definition check_sigspec (sigspec : option signature) (f : pyfunc)
    (builtin_rv : option bool) : checked :=
  match sigspec with
  | Some s => Checked s
  | None =>
      match inspect_signature f with
      | SigOk s => Checked s
      | SigValueError => Fallback builtin_rv
      | SigTypeError =>
          if has_signature_get f then Fallback builtin_rv else Fallback (Some false)
      end
  end.

Definition has_varargs (f : pyfunc) (sigspec : option signature) : option bool :=
  match check_sigspec sigspec f (sigs_has_varargs f) with
  | Fallback rv => rv
  | Checked s => Some (has_var_positional s)
  end.

Definition is_valid_args (f : pyfunc) (args : list V) (kw : kwdict)
    (sigspec : option signature) : option bool :=
  match check_sigspec sigspec f (sigs_is_valid_args f args kw) with
  | Fallback rv => rv
  | Checked s => Some (bool_decide (is_Some (sig_bind false s args kw)))
  end.

Definition is_partial_args (f : pyfunc) (args : list V) (kw : kwdict)
    (sigspec : option signature) : option bool :=
  match check_sigspec sigspec f (sigs_is_partial_args f args kw) with
  | Fallback rv => rv
  | Checked s => Some (bool_decide (is_Some (sig_bind true s args kw)))
  end.


(** ** The [curry] class (functoolz.py 292-543) *)

(** A curry instance: its [_partial] (func, args, keywords) and the
    [_sigspec] / [_has_unknown_args] cache filled by [_should_curry]. *)
Record curry := mkCurry {
  c_func : pyfunc;
  c_args : list V;
  c_keywords : kwdict;
  c_sigspec : option signature;
  c_has_unknown_args : option bool
}.

(** What [curry.__init__] receives as [func]. *)
Inductive cinput :=
| CIn (c : curry)
| FIn (f : pyfunc).

Definition input_callable (i : cinput) : bool :=
  match i with CIn _ => true | FIn f => py_callable f end.

(** [is_partial_function(func)], returning the [func], [args] and
    [keywords] attributes it inspected.  A curry exposes them through its
    instance properties ([self._partial.args] is a tuple). *)
Definition partial_parts (i : cinput) : option (pyfunc * list V * option kwdict) :=
  match i with
  | CIn c => Some (c_func c, c_args c, Some (c_keywords c))
  | FIn (PObj _ _ (Some g) (Some (VTuple a)) (Some k) _ _) => Some (g, a, k)
  | FIn _ => None
  end.

Definition is_partial_function (i : cinput) : bool := bool_decide (is_Some (partial_parts i)).

Definition kw_truthy (k : option kwdict) : bool :=
  match k with Some d => negb (bool_decide (d = ∅)) | None => false end.

(** [curry.__init__]; [None] is a raised [TypeError] ('Input must be
    callable', or [functools.partial] refusing a non-callable). *)
Definition curry_init (i : cinput) (args : list V) (kwargs : kwdict) : option curry :=
  if negb (input_callable i) then None
  else
    let '(func, args, kwargs) :=
      match partial_parts i, i with
      | Some (g, a, k), _ =>
          let _kwargs : kwdict := if kw_truthy k then from_option id ∅ k else ∅ in
          (g, a ++ args, kwargs ∪ _kwargs)         (* _kwargs.update(kwargs) *)
      | None, FIn f => (f, args, kwargs)
      | None, CIn c => (c_func c, args, kwargs)    (* unreachable *)
      end in
    (* partial(func, *args, **kwargs) or partial(func, *args): keywords == kwargs *)
    if py_callable func then Some (mkCurry func args kwargs None None) else None.

(** [curry.call]: calling [self._partial] with the new arguments. *)
Definition curry_call (self : curry) (args : list V) (kwargs : kwdict) : list nat * outcome :=
  py_call (c_func self) (c_args self ++ args) (kwargs ∪ c_keywords self).

(** [curry.bind]: [type(self)(self, *args, **kwargs)]. *)
Definition curry_bind (self : curry) (args : list V) (kwargs : kwdict) : option curry :=
  curry_init (CIn self) args kwargs.

(** [curry._should_curry]; returns the decision and [self] with its
    signature cache filled.  The exception argument is not read. *)
Definition should_curry (self : curry) (args : list V) (kwargs : kwdict) (exc : exn)
    : bool * curry :=
  let func := c_func self in
  let args := c_args self ++ args in
  let kwargs := if bool_decide (c_keywords self = ∅) then kwargs
                else kwargs ∪ c_keywords self in   (* dict(self.keywords, **kwargs) *)
  let '(sigspec, self') :=
    match c_sigspec self with
    | None =>
        let sigspec := signature_or_spec func in
        let hu := negb (is_False (has_varargs func sigspec)) in
        (sigspec, mkCurry func (c_args self) (c_keywords self) sigspec (Some hu))
    | Some s => (Some s, self)
    end in
  if is_False (is_partial_args func args kwargs sigspec) then (false, self')
  else if truthy (c_has_unknown_args self') then (true, self')
  else if negb (truthy (is_valid_args func args kwargs sigspec)) then (true, self')
  else (false, self').

Inductive call_result :=
| CRet (v : V)
| CCurried (c : curry)
| CRaise (e : exn).

(** [curry.__call__]: the (possibly cache-updated) instance, the bodies
    that ran, and the result. *)
Definition curry_dunder_call (self : curry) (args : list V) (kwargs : kwdict)
    : curry * list nat * call_result :=
  let '(tr, o) := curry_call self args kwargs in
  match o with
  | ORet v => (self, tr, CRet v)
  | ORaise (TypeError m) =>
      let '(b, self') := should_curry self args kwargs (TypeError m) in
      if b then
        match curry_bind self' args kwargs with
        | Some c => (self', tr, CCurried c)
        | None => (self', tr, CRaise (TypeError "Input must be callable"))
        end
      else (self', tr, CRaise (TypeError m))
  | ORaise e => (self, tr, CRaise e)
  end.

End Classifiers.

(** [curry.__get__(instance, owner)]: [None] stands for [instance is None]. *)
Definition curry_get (self : curry) (instance : option V) : option curry :=
  match instance with
  | None => Some self
  | Some inst => curry_init (CIn self) [inst] ∅
  end.

(** ** Equality and hashing ([curry.__eq__], [curry.__hash__]) *)

(** [==] on argument values. *)
Fixpoint py_eq_v (a b : V) : bool :=
  let fix eq_list (l1 l2 : list V) : bool :=
    match l1, l2 with
    | [], [] => true
    | x :: xs, y :: ys => py_eq_v x y && eq_list xs ys
    | _, _ => false
    end in
  match a, b with
  | VInt x, VInt y => Z.eqb x y
  | VStr x, VStr y => String.eqb x y
  | VTuple l1, VTuple l2 => eq_list l1 l2
  | VList l1, VList l2 => eq_list l1 l2
  | VNone, VNone => true
  | VObj x, VObj y => Nat.eqb x y
  | _, _ => false
  end.


(** [dict.__eq__] (CPython [dict_equal]): same size, and every key of the
    first is in the second with an [==] value. *)
Definition py_eq_dict (d1 d2 : kwdict) : bool :=
  Nat.eqb (size d1) (size d2) &&
  forallb (fun kv => match d2 !! kv.1 with
                     | Some v' => py_eq_v kv.2 v'
                     | None => false
                     end) (map_to_list d1).

(** [a is b] on callables. *)
Definition same_object (f g : pyfunc) : bool :=
  match f, g with
  | PFun i _ _ _ _, PFun j _ _ _ _
  | PBuiltin i _ _ _ _ _ _, PBuiltin j _ _ _ _ _ _
  | PMethod i _ _, PMethod j _ _
  | PObj i _ _ _ _ _ _, PObj j _ _ _ _ _ _
  | PCompose i _ _ _, PCompose j _ _ _ => Nat.eqb i j
  | _, _ => false
  end.

(** [==] on callables.  Functions, classes and other objects compare by
    identity (the default [object.__eq__]); bound methods compare
    [__self__] by identity and [__func__] with [==] ([method_richcompare],
    CPython >= 3.8); builtin bound methods compare [__self__] by identity
    and their C function ([meth_richcompare]); [Compose] instances compare
    with [Compose.__eq__] (697-700):
    [other.first == self.first and other.funcs == self.funcs], the tuple
    [==] being element-wise with equal lengths.  The relation is symmetric
    ([py_eq_f_sym]), so the operands are taken in either order. *)
Fixpoint py_eq_f (f g : pyfunc) : bool :=
  let fix eq_funcs (l1 l2 : list pyfunc) : bool :=
    match l1, l2 with
    | [], [] => true
    | x :: xs, y :: ys => py_eq_f x y && eq_funcs xs ys
    | _, _ => false
    end in
  match f, g with
  | PMethod _ s1 f1, PMethod _ s2 f2 => Nat.eqb s1 s2 && py_eq_f f1 f2
  | PBuiltin _ _ _ _ _ (Some (s1, m1)) _, PBuiltin _ _ _ _ _ (Some (s2, m2)) _ =>
      Nat.eqb s1 s2 && Nat.eqb m1 m2
  | PBuiltin _ _ _ _ _ (Some _) _, _ | _, PBuiltin _ _ _ _ _ (Some _) _ =>
      false        (* objects of different types: compared by identity *)
  | PCompose _ f1 n1 r1, PCompose _ f2 n2 r2 =>
      py_eq_f f1 f2 && (py_eq_f n1 n2 && eq_funcs r1 r2)
  | _, _ => same_object f g
  end.


(** 64-bit [Py_uhash_t] arithmetic. *)
Definition u64 (z : Z) : Z := z mod 2 ^ 64.
Definition to_signed (z : Z) : Z := if z <? 2 ^ 63 then z else z - 2 ^ 64.

(** [_Py_HashPointer] of object number [n]: the object's address stands
    for its identity here. *)
Definition id_hash (n : nat) : Z := Z.of_nat n.

(** [long_hash] for a 64-bit build: reduction modulo [2^61 - 1]. *)
Definition int_hash (z : Z) : Z :=
  let x := Z.abs z mod (2 ^ 61 - 1) in
  let x := if z <? 0 then - x else x in
  if Z.eqb x (-1) then -2 else x.

(** [hash(None)] (CPython 3.12). *)
Definition none_hash : Z := 4238894112.

Definition XXPRIME_1 : Z := 11400714785074694791.
Definition XXPRIME_2 : Z := 14029467366897019727.
Definition XXPRIME_5 : Z := 2870177450012600261.

Definition xx_rotate (x : Z) : Z := u64 (Z.lor (Z.shiftl x 31) (Z.shiftr x 33)).

(** [tuplehash] (xxHash-based, CPython >= 3.8), from the item hashes. *)
Definition tuple_hash (hs : list Z) : Z :=
  let acc := fold_left (fun acc lane =>
                 u64 (xx_rotate (u64 (acc + u64 lane * XXPRIME_2)) * XXPRIME_1))
               hs XXPRIME_5 in
  let acc := u64 (acc + Z.lxor (Z.of_nat (length hs)) (Z.lxor XXPRIME_5 3527539)) in
  if Z.eqb acc (2 ^ 64 - 1) then 1546275796 else to_signed acc.

Definition shuffle_bits (h : Z) : Z :=
  let h := u64 h in u64 (Z.lxor (Z.lxor h 89869747) (u64 (Z.shiftl h 16)) * 3644798167).

(** [frozenset_hash], from the hashes of the active entries (the
    corrections for empty and dummy slots cancel their contribution). *)
Definition frozenset_hash (hs : list Z) : Z :=
  let h := fold_left (fun acc x => Z.lxor acc (shuffle_bits x)) hs 0 in
  let h := Z.lxor h (u64 ((Z.of_nat (length hs) + 1) * 1927868237)) in
  let h := Z.lxor h (Z.lxor (Z.shiftr h 11) (Z.shiftr h 25)) in
  let h := u64 (h * 69069 + 907133923) in
  if Z.eqb h (2 ^ 64 - 1) then 590923713 else to_signed h.

(** [hash(f)] on callables: the pointer hash for functions, classes and
    other objects; [method_hash] for bound methods
    ([hash(__self__) ^ hash(__func__)]); [meth_hash] for builtin bound
    methods ([__self__] and C function pointers); [Compose.__hash__]
    (706-707) for [Compose] instances: [hash(self.first) ^ hash(self.funcs)].
    A result of [-1] becomes [-2]. *)
Fixpoint py_hash_f (f : pyfunc) : option Z :=
  let fix hash_funcs (l : list pyfunc) : option (list Z) :=
    match l with
    | [] => Some []
    | g :: gs =>
        match py_hash_f g, hash_funcs gs with
        | Some h, Some hs => Some (h :: hs)
        | _, _ => None
        end
    end in
  match f with
  | PMethod _ s g =>
      match py_hash_f g with
      | Some y => let x := Z.lxor (id_hash s) y in Some (if Z.eqb x (-1) then -2 else x)
      | None => None
      end
  | PBuiltin _ _ _ _ _ (Some (s, m)) _ =>
      let x := Z.lxor (id_hash s) (id_hash m) in Some (if Z.eqb x (-1) then -2 else x)
  | PCompose _ first next rest =>
      match py_hash_f first, hash_funcs (next :: rest) with
      | Some h1, Some hs =>
          let x := Z.lxor h1 (tuple_hash hs) in Some (if Z.eqb x (-1) then -2 else x)
      | _, _ => None
      end
  | _ => Some (id_hash (py_id f))
  end.

Section Hashing.

(** [str.__hash__] is SipHash keyed by the per-process hash seed. *)
Variable str_hash : string -> Z.

(** [hash(v)]; [None] is the [TypeError] raised for an unhashable value. *)
Fixpoint py_hash_v (v : V) : option Z :=
  let fix hash_list (l : list V) : option (list Z) :=
    match l with
    | [] => Some []
    | x :: xs =>
        match py_hash_v x, hash_list xs with
        | Some h, Some hs => Some (h :: hs)
        | _, _ => None
        end
    end in
  match v with
  | VInt z => Some (int_hash z)
  | VStr s => Some (str_hash s)
  | VTuple l => match hash_list l with Some hs => Some (tuple_hash hs) | None => None end
  | VList _ => None
  | VNone => Some none_hash
  | VObj n => Some (id_hash n)
  end.

Fixpoint hash_items (l : list V) : option (list Z) :=
  match l with
  | [] => Some []
  | x :: xs =>
      match py_hash_v x, hash_items xs with
      | Some h, Some hs => Some (h :: hs)
      | _, _ => None
      end
  end.

(** The hashes of the [(key, value)] tuples of [kw.items()]. *)
Fixpoint hash_kw_items (l : list (string * V)) : option (list Z) :=
  match l with
  | [] => Some []
  | (k, v) :: rest =>
      match py_hash_v v, hash_kw_items rest with
      | Some hv, Some hs => Some (tuple_hash [str_hash k; hv] :: hs)
      | _, _ => None
      end
  end.

(** [curry.__hash__]:
    [hash((self.func, self.args, frozenset(self.keywords.items()) if self.keywords else None))]. *)
Definition curry_hash (self : curry) : option Z :=
  match py_hash_f (c_func self), hash_items (c_args self),
        (if bool_decide (c_keywords self = ∅) then Some none_hash
         else match hash_kw_items (map_to_list (c_keywords self)) with
              | Some hs => Some (frozenset_hash hs)
              | None => None
              end) with
  | Some hf, Some ha, Some hk => Some (tuple_hash [hf; tuple_hash ha; hk])
  | _, _, _ => None
  end.

End Hashing.

(** ** Pickling ([curry.__reduce__], [_restore_curry]) *)

(** [str.split(sep)]. *)
Fixpoint split_on (sep : ascii) (s : string) : list string :=
  match s with
  | EmptyString => [EmptyString]
  | String c rest =>
      if Ascii.eqb c sep then EmptyString :: split_on sep rest
      else match split_on sep rest with
           | w :: ws => String c w :: ws
           | [] => [String c EmptyString]
           end
  end.

(** [sep.join(parts)]. *)
Fixpoint join_with (sep : ascii) (parts : list string) : string :=
  match parts with
  | [] => EmptyString
  | [w] => w
  | w :: ws => (w ++ String sep (join_with sep ws))%string
  end.

(** [s.rsplit(sep, 1)] unpacked into two names; [None] when [sep] does
    not occur (the unpacking raises). *)
Definition rsplit1 (sep : ascii) (s : string) : option (string * string) :=
  match split_on sep s with
  | [_] => None
  | parts => Some (join_with sep (removelast parts), List.last parts EmptyString)
  end.

(** Objects reachable from [sys.modules]: curry instances (with their
    identity), callables, and namespaces (modules, classes). *)
Inductive pobj :=
| OCurry (cid : nat) (c : curry)
| OFunc (f : pyfunc)
| ONs (nid : nat) (attrs : list (string * pobj)).

Fixpoint str_assoc {A} (k : string) (l : list (string * A)) : option A :=
  match l with
  | [] => None
  | (k', a) :: rest => if String.eqb k k' then Some a else str_assoc k rest
  end.

Abbreviation modules := (list (string * pobj)).

Definition import_module (ms : modules) (m : string) : option pobj := str_assoc m ms.

Section Pickling.

(** The attributes of the callable with a given identity that lead to
    other objects of interest: the members of a class, the entries of a
    function's [__dict__]. *)
Variable fattrs : nat -> list (string * pobj).

(** [getattr(obj, attr)], [None] for a missing attribute.  Of a curry
    only the [func] property is used on these paths. *)
Definition py_getattr (o : pobj) (attr : string) : option pobj :=
  match o with
  | ONs _ attrs => str_assoc attr attrs
  | OCurry _ c => if String.eqb attr "func" then Some (OFunc (c_func c)) else None
  | OFunc f => str_assoc attr (fattrs (py_id f))
  end.

Fixpoint getattr_path (o : pobj) (attrs : list string) : option pobj :=
  match attrs with
  | [] => Some o
  | a :: rest =>
      match py_getattr o a with
      | Some o' => getattr_path o' rest
      | None => None
      end
  end.

Fixpoint py_module (f : pyfunc) : string :=
  match f with
  | PFun _ m _ _ _ | PBuiltin _ m _ _ _ _ _ => m
  | PMethod _ _ g => py_module g
  | PObj _ _ _ _ _ _ _ => EmptyString
  | PCompose _ _ _ _ => "toolz.functoolz"          (* the class attribute *)
  end.

Fixpoint py_qualname (f : pyfunc) : string :=
  match f with
  | PFun _ _ q _ _ | PBuiltin _ _ q _ _ _ _ => q
  | PMethod _ _ g => py_qualname g
  | PObj _ _ _ _ _ _ _ => EmptyString
  | PCompose _ _ _ _ => EmptyString   (* instances have no [__qualname__] *)
  end.

(** The attribute walk of [__reduce__]:
    [for attr in qualname.split('.'): if isinstance(obj, curry): attrs.append('func');
     obj = obj.func; obj = getattr(obj, attr, None); if obj is None: break;
     attrs.append(attr)]. *)
Fixpoint walk_reduce (o : pobj) (parts : list string) : option pobj * list string :=
  match parts with
  | [] => (Some o, [])
  | attr :: rest =>
      let '(o1, pre) := match o with
                        | OCurry _ c => (OFunc (c_func c), ["func"%string])
                        | _ => (o, [])
                        end in
      match py_getattr o1 attr with
      | None => (None, pre)
      | Some o2 => let '(r, attrs) := walk_reduce o2 rest in (r, pre ++ attr :: attrs)
      end
  end.


(** How [pickle] saves a function by reference ([save_global]): the
    module and qualified name must lead back to the same object.  Objects
    that [pickle] saves by value (such as [Compose] instances, through
    [__getstate__]) are not modelled: [None]. *)
Inductive fref :=
| FRefGlobal (modname qualname : string)
| FRefPath (path : string).

Definition pickle_global (ms : modules) (f : pyfunc) : option fref :=
  match import_module ms (py_module f) with
  | Some mo =>
      match getattr_path mo (split_on "." (py_qualname f)) with
      | Some (OFunc g) => if same_object g f then Some (FRefGlobal (py_module f) (py_qualname f)) else None
      | _ => None
      end
  | None => None
  end.

(** The state tuple of [__reduce__]: [(type(self), func, self.args,
    self.keywords, userdict, is_decorated)]; [userdict] keeps the
    [_has_unknown_args] entry. *)
Record curry_state := mkState {
  st_func : fref;
  st_args : list V;
  st_keywords : kwdict;
  st_userdict : option bool;
  st_is_decorated : option bool
}.

(** [curry.__reduce__] of the curry [self] with identity [self_id], with
    the pickling of its [func] field; [None] when pickling raises. *)
Definition encode_curry (ms : modules) (self_id : nat) (self : curry) : option curry_state :=
  let func := c_func self in
  let modname := py_module func in
  let qualname := py_qualname func in
  let found :=
    if negb (String.eqb modname "") && negb (String.eqb qualname "") then
      match import_module ms modname with
      | None => None
      | Some mo =>
          match walk_reduce mo (split_on "." qualname) with
          | (Some (OCurry cid c), attrs) =>
              if same_object (c_func c) func then
                Some (Some ((modname ++ ":" ++ join_with "." attrs)%string, Nat.eqb cid self_id))
              else Some None
          | _ => Some None
          end
      end
    else Some None in
  match found with
  | None => None
  | Some (Some (path, is_decorated)) =>
      Some (mkState (FRefPath path) (c_args self) (c_keywords self)
              (c_has_unknown_args self) (Some is_decorated))
  | Some None =>
      match pickle_global ms func with
      | Some r => Some (mkState r (c_args self) (c_keywords self) (c_has_unknown_args self) None)
      | None => None
      end
  end.

Inductive restored :=
| RExisting (o : pobj)
| RNew (c : curry).

(** [cls(func, *args, **(kwargs or {}))] then [obj.__dict__.update(userdict)]. *)
Definition rewrap (st : curry_state) (g : pyfunc) : option restored :=
  match curry_init (FIn g) (st_args st) (st_keywords st) with
  | Some c => Some (RNew (mkCurry (c_func c) (c_args c) (c_keywords c) (c_sigspec c) (st_userdict st)))
  | None => None
  end.

(** Unpickling the state and calling [_restore_curry]. *)
Definition decode_curry (ms : modules) (st : curry_state) : option restored :=
  match st_func st with
  | FRefGlobal m q =>
      match import_module ms m with
      | Some mo =>
          match getattr_path mo (split_on "." q) with
          | Some (OFunc g) => rewrap st g
          | _ => None
          end
      | None => None
      end
  | FRefPath p =>
      match rsplit1 ":" p with
      | None => None
      | Some (modname, qualname) =>
          match import_module ms modname with
          | None => None
          | Some mo =>
              match getattr_path mo (split_on "." qualname) with
              | None => None
              | Some o =>
                  if truthy (st_is_decorated st) then Some (RExisting o)
                  else match py_getattr o "func" with
                       | Some (OFunc g) => rewrap st g
                       | _ => None
                       end
              end
          end
      end
  end.

Definition restored_curry (r : restored) : option curry :=
  match r with
  | RExisting (OCurry _ c) => Some c
  | RExisting _ => None
  | RNew c => Some c
  end.

End Pickling.

(** ** Signature well-formedness and arity *)

Definition kind_rank (k : kind) : nat :=
  match k with
  | POSITIONAL_ONLY => 0 | POSITIONAL_OR_KEYWORD => 1 | VAR_POSITIONAL => 2
  | KEYWORD_ONLY => 3 | VAR_KEYWORD => 4
  end.

(** The ordering checks of [Signature.__init__] ('wrong parameter order',
    'non-default argument follows default argument'); every [def]
    function's signature passes them. *)
Fixpoint sig_wf_from (top : nat) (seen_default : bool) (s : signature) : bool :=
  match s with
  | [] => true
  | p :: ps =>
      let r := kind_rank (p_kind p) in
      if Nat.ltb r top then false
      else
        let positional := Nat.leb r 1 in
        if positional && negb (p_has_default p) && seen_default then false
        else sig_wf_from (Nat.max top r) (seen_default || (positional && p_has_default p)) ps
  end.

Definition sig_wf (s : signature) : bool := sig_wf_from 0 false s.

Definition required_positional (p : param) : bool :=
  Nat.leb (kind_rank (p_kind p)) 1 && negb (p_has_default p).

(** The count computed by [num_required_args] on a signature. *)
Definition num_required_of (s : signature) : nat :=
  length (List.filter required_positional s).

Definition required_kwonly (p : param) : bool :=
  kind_eqb (p_kind p) KEYWORD_ONLY && negb (p_has_default p).

(** A callable that binds its arguments to [s] before any code of its own
    runs: on a mismatch it raises [TypeError] having run nothing, and
    otherwise its trace is [[i]].  A [def] function does this with its
    body [i], and so does a bound method of one ([binds_then_runs_fun],
    [binds_then_runs_method]). *)
Definition binds_then_runs (f : pyfunc) (s : signature) (i : nat) : Prop :=
  forall args : list V,
    (sig_bind false s args ∅ = None ->
       exists m, py_call f args ∅ = ([], ORaise (TypeError m))) /\
    (is_Some (sig_bind false s args ∅) -> fst (py_call f args ∅) = [i]).

(** ** The decision order stated by the specification (section 4.4) *)

(** The signature [_should_curry] works with: the cached one, or the
    resolver's answer. *)
Definition resolved_sigspec (registry : nat -> option signature) (self : curry)
    : option signature :=
  match c_sigspec self with
  | Some s => Some s
  | None => signature_or_spec registry (c_func self)
  end.

(** partial False -> propagate; variadic Unknown or True -> accumulate;
    valid False -> accumulate; otherwise propagate. *)
Definition spec_should_curry (registry : nat -> option signature) (self : curry)
    (args : list V) (kw : kwdict) : bool :=
  let f := c_func self in
  let A := c_args self ++ args in
  let K := kw ∪ c_keywords self in
  let s := resolved_sigspec registry self in
  match is_partial_args registry f A K s with
  | Some false => false
  | _ =>
      match has_varargs registry f s with
      | None | Some true => true
      | Some false =>
          match is_valid_args registry f A K s with
          | Some false => true
          | _ => false
          end
      end
  end.

(** The cache of a curry holds what [_should_curry] stores in it. *)
Definition cache_consistent (registry : nat -> option signature) (self : curry) : Prop :=
  forall s, c_sigspec self = Some s ->
    c_has_unknown_args self = Some (negb (is_False (has_varargs registry (c_func self) (Some s)))).

(** ** [has_keywords] and [is_arity] (functoolz.py 1055-1158) *)

(** The [any(...)] of [has_keywords] on a signature. *)
Definition has_keywords_of (s : signature) : bool :=
  existsb (fun p => p_has_default p || kind_eqb (p_kind p) KEYWORD_ONLY
                    || kind_eqb (p_kind p) VAR_KEYWORD) s.

Section Arity.

Variable registry : nat -> option signature.

(** [_sigs._has_keywords(func)] and [_sigs._is_arity(n, func)], the answers
    for callables without a signature, are left open. *)
Variable sigs_has_keywords : pyfunc -> option bool.
Variable sigs_is_arity : nat -> pyfunc -> option bool.

Definition has_keywords (f : pyfunc) (sigspec : option signature) : option bool :=
  match check_sigspec registry sigspec f (sigs_has_keywords f) with
  | Fallback rv => rv
  | Checked s => Some (has_keywords_of s)
  end.

Definition is_arity (n : nat) (f : pyfunc) (sigspec : option signature) : option bool :=
  match check_sigspec registry sigspec f (sigs_is_arity n f) with
  | Fallback rv => rv
  | Checked s =>
      (* [num_required_args(func, sigspec)] with the signature at hand *)
      let num := num_required_of s in
      if negb (Nat.eqb num n) then Some false
      else
        let varargs := has_varargs registry f (Some s) in
        if truthy varargs then Some false
        else
          let keywords := has_keywords f (Some s) in
          if truthy keywords then Some false
          else match varargs, keywords with
               | None, _ | _, None => None
               | _, _ => Some true
               end
  end.

End Arity.

(** ** Calling, [identity], [pipe], [compose], [compose_left] (functoolz.py 62-794) *)

(** Calling any object with [args] and [kwargs]: a [TypeError] for an object
    that is not callable. *)
Definition call_obj (f : pyfunc) (args : list V) (kw : kwdict) : list nat * outcome :=
  if py_callable f then py_call f args kw
  else ([], ORaise (TypeError "object is not callable")).

(** [def identity(x): return x], object number [identity_fid]. *)
Definition identity_body (b : arguments) : outcome :=
  match b !! "x"%string with
  | Some (BArg v) => ORet v
  | _ => ORaise (OtherError "KeyError" "x")
  end.

Definition identity_fid : nat := 62.

Definition py_identity : pyfunc :=
  PFun identity_fid "toolz.functoolz" "identity"
       [mkParam "x" POSITIONAL_OR_KEYWORD false] identity_body.

(** [pipe(data, *funcs)]: [for func in funcs: data = func(data)]. *)
Fixpoint pipe (data : V) (funcs : list pyfunc) : list nat * outcome :=
  match funcs with
  | [] => ([], ORet data)
  | f :: fs =>
      let (t, o) := call_obj f [data] ∅ in
      match o with
      | ORet d => let (t', o') := pipe d fs in (t ++ t', o')
      | ORaise e => (t, ORaise e)
      end
  end.

(** A [Compose] instance: [first] and [funcs]. *)
Record compose_obj := mkCompose {
  cp_first : pyfunc;
  cp_funcs : list pyfunc
}.

(** [Compose.__init__]: [None] is the [IndexError] of [funcs[0]] when
    there is no function. *)
Definition Compose_init (funcs : list pyfunc) : option compose_obj :=
  match rev funcs with
  | [] => None
  | f :: rest => Some (mkCompose f rest)
  end.

(** [Compose.__call__]; its loop [for f in self.funcs: ret = f(ret)] is
    the loop of [pipe]. *)
Definition compose_call (c : compose_obj) (args : list V) (kw : kwdict)
    : list nat * outcome :=
  let (t, o) := call_obj (cp_first c) args kw in
  match o with
  | ORet r => let (t', o') := pipe r (cp_funcs c) in (t ++ t', o')
  | ORaise e => (t, ORaise e)
  end.

(** What [compose] returns: a function it was given (or [identity]), or a
    [Compose] instance. *)
Inductive composed :=
| CFn (f : pyfunc)
| CCompose (c : compose_obj).

Definition compose (funcs : list pyfunc) : option composed :=
  match funcs with
  | [] => Some (CFn py_identity)
  | [f] => Some (CFn f)
  | _ => match Compose_init funcs with
         | Some c => Some (CCompose c)
         | None => None
         end
  end.

Definition compose_left (funcs : list pyfunc) : option composed :=
  compose (rev funcs).

Definition composed_call (c : composed) (args : list V) (kw : kwdict)
    : list nat * outcome :=
  match c with
  | CFn f => call_obj f args kw
  | CCompose c => compose_call c args kw
  end.

(** Tuple [==] on tuples of callables ([is] implies [==] for callables). *)
Fixpoint py_eq_funcs (l1 l2 : list pyfunc) : bool :=
  match l1, l2 with
  | [], [] => true
  | f :: fs, g :: gs => py_eq_f f g && py_eq_funcs fs gs
  | _, _ => false
  end.


Fixpoint hash_funcs (l : list pyfunc) : option (list Z) :=
  match l with
  | [] => Some []
  | f :: fs =>
      match py_hash_f f, hash_funcs fs with
      | Some h, Some hs => Some (h :: hs)
      | _, _ => None
      end
  end.


(** ** [thread_first], [thread_last] (functoolz.py 85-182) *)

(** A form: a callable, a tuple [(func, *args)], or the empty tuple. *)
Inductive form :=
| FFunc (f : pyfunc)
| FTuple (f : pyfunc) (args : list V)
| FEmpty.

Definition evalform_front (val : V) (fm : form) : list nat * outcome :=
  match fm with
  | FFunc f =>
      if py_callable f then py_call f [val] ∅
      else ([], ORaise (TypeError "object is not subscriptable"))
  | FTuple f args => call_obj f (val :: args) ∅
  | FEmpty => ([], ORaise (OtherError "IndexError" "tuple index out of range"))
  end.

Definition evalform_back (val : V) (fm : form) : list nat * outcome :=
  match fm with
  | FFunc f =>
      if py_callable f then py_call f [val] ∅
      else ([], ORaise (TypeError "object is not subscriptable"))
  | FTuple f args => call_obj f (args ++ [val]) ∅
  | FEmpty => ([], ORaise (OtherError "IndexError" "tuple index out of range"))
  end.

(** [reduce(evalform, forms, val)]. *)
Fixpoint reduce_forms (ev : V -> form -> list nat * outcome) (val : V) (forms : list form)
    : list nat * outcome :=
  match forms with
  | [] => ([], ORet val)
  | fm :: fms =>
      let (t, o) := ev val fm in
      match o with
      | ORet v => let (t', o') := reduce_forms ev v fms in (t ++ t', o')
      | ORaise e => (t, ORaise e)
      end
  end.

Definition thread_first (val : V) (forms : list form) : list nat * outcome :=
  reduce_forms evalform_front val forms.

Definition thread_last (val : V) (forms : list form) : list nat * outcome :=
  reduce_forms evalform_back val forms.

(** ** [juxt] (functoolz.py 813-844) *)

(** An argument of [juxt]: an object that may be callable, or a
    list (or tuple) of callables. *)
Inductive jfunc :=
| JFunc (f : pyfunc)
| JSeq (fs : list pyfunc).

(** [juxt.__init__]: the [funcs] it keeps; [None] is the [TypeError] of
    [tuple(funcs[0])] on a lone object that is neither callable nor
    iterable. *)
Definition juxt_init (funcs : list jfunc) : option (list jfunc) :=
  match funcs with
  | [JSeq fs] => Some (map JFunc fs)
  | [JFunc f] => if py_callable f then Some funcs else None
  | _ => Some funcs
  end.

(** The generator over [self.funcs] calling each one, drained
    by [tuple(...)]: the results, or the first exception. *)
Fixpoint juxt_results (funcs : list jfunc) (args : list V) (kw : kwdict)
    : list nat * (list V + exn) :=
  match funcs with
  | [] => ([], inl [])
  | j :: js =>
      let (t, o) := match j with
                    | JFunc f => call_obj f args kw
                    | JSeq _ => ([], ORaise (TypeError "'list' object is not callable"))
                    end in
      match o with
      | ORaise e => (t, inr e)
      | ORet v =>
          let (t', r) := juxt_results js args kw in
          (t ++ t', match r with inl vs => inl (v :: vs) | inr e => inr e end)
      end
  end.

Definition juxt_call (funcs : list jfunc) (args : list V) (kw : kwdict)
    : list nat * outcome :=
  let (t, r) := juxt_results funcs args kw in
  (t, match r with inl vs => ORet (VTuple vs) | inr e => ORaise e end).

(** ** [excepts] (functoolz.py 900-997) *)

(** The class name of an exception. *)
Definition exn_class (e : exn) : string :=
  match e with
  | TypeError _ => "TypeError"
  | OtherError n _ => n
  end.

(** [def return_none(exc): return None], object number [return_none_fid]. *)
Definition return_none_fid : nat := 900.

Definition return_none (e : exn) : list nat * outcome := ([return_none_fid], ORet VNone).

(** An [excepts] instance: [exc] (a class or a tuple of classes, as the
    list of their names), [func], and [handler] called on the exception. *)
Record excepts_obj := mkExcepts {
  ex_exc : list string;
  ex_func : pyfunc;
  ex_handler : exn -> list nat * outcome
}.

Definition excepts_init (exc : list string) (func : pyfunc)
    (handler : option (exn -> list nat * outcome)) : excepts_obj :=
  mkExcepts exc func (match handler with Some h => h | None => return_none end).

Section Excepts.

(** [issubclass] on exception classes, by name. *)
Variable is_subclass : string -> string -> bool.

Definition exc_matches (exc : list string) (e : exn) : bool :=
  existsb (is_subclass (exn_class e)) exc.

Definition excepts_call (x : excepts_obj) (args : list V) (kw : kwdict)
    : list nat * outcome :=
  let (t, o) := call_obj (ex_func x) args kw in
  match o with
  | ORet v => (t, ORet v)
  | ORaise e =>
      if exc_matches (ex_exc x) e then
        let (t', o') := ex_handler x e in (t ++ t', o')
      else (t, ORaise e)
  end.

End Excepts.

(** ** [memoize] (functoolz.py 546-631) *)

(** Cache keys: a value, or a pair [(a, frozenset(kwargs.items()))] (a pair
    [(a, None)] is the value [VTuple [a; VNone]]). *)
Inductive mkey :=
| MV (v : V)
| MFs (a : V) (items : kwdict).

Definition mkey_eqb (k1 k2 : mkey) : bool :=
  match k1, k2 with
  | MV v1, MV v2 => py_eq_v v1 v2
  | MFs a1 d1, MFs a2 d2 => py_eq_v a1 a2 && py_eq_dict d1 d2
  | _, _ => false
  end.

(** The cache dict, in insertion order. *)
Definition memo_cache := list (mkey * V).

(** [cache[k]]: [None] is the [KeyError]. *)
Fixpoint cache_lookup (c : memo_cache) (k : mkey) : option V :=
  match c with
  | [] => None
  | (k', v) :: c' => if mkey_eqb k' k then Some v else cache_lookup c' k
  end.

(** [cache[k] = v]. *)
Fixpoint cache_store (c : memo_cache) (k : mkey) (v : V) : memo_cache :=
  match c with
  | [] => [(k, v)]
  | (k', v') :: c' => if mkey_eqb k' k then (k', v) :: c' else (k', v') :: cache_store c' k v
  end.

(** The result of [key(args, kwargs)]. *)
Inductive keyres :=
| KeyOk (k : mkey)
| KeyRaise (e : exn).

(** The three default key functions. *)
Inductive keykind :=
| KeyUnary
| KeyArgsKwargs
| KeyArgs.

(** [args or None]. *)
Definition args_or_none (args : list V) : V :=
  match args with [] => VNone | _ => VTuple args end.

(** A memoized function: [func], [key] and the [cache] it closes over. *)
Record memo := mkMemo {
  m_func : pyfunc;
  m_key : list V -> kwdict -> keyres;
  m_cache : memo_cache
}.

Section Memoize.

Variable registry : nat -> option signature.
Variable sigs_has_keywords : pyfunc -> option bool.
Variable sigs_is_arity : nat -> pyfunc -> option bool.
Variable str_hash : string -> Z.

(** [hash(k)]; [None] is the [TypeError] of an unhashable key. *)
Definition mkey_hash (k : mkey) : option Z :=
  match k with
  | MV v => py_hash_v str_hash v
  | MFs a d =>
      match py_hash_v str_hash a, hash_kw_items str_hash (map_to_list d) with
      | Some ha, Some hs => Some (tuple_hash [ha; frozenset_hash hs])
      | _, _ => None
      end
  end.

Definition memo_keykind (f : pyfunc) : keykind :=
  let may_have_kwargs := negb (is_False (has_keywords registry sigs_has_keywords f None)) in
  let is_unary := is_arity registry sigs_has_keywords sigs_is_arity 1 f None in
  if truthy is_unary then KeyUnary
  else if may_have_kwargs then KeyArgsKwargs
  else KeyArgs.

Definition default_key (kk : keykind) (args : list V) (kw : kwdict) : keyres :=
  match kk with
  | KeyUnary =>
      match args with
      | a :: _ => KeyOk (MV a)
      | [] => KeyRaise (OtherError "IndexError" "tuple index out of range")
      end
  | KeyArgsKwargs =>
      if bool_decide (kw = ∅) then KeyOk (MV (VTuple [args_or_none args; VNone]))
      else match hash_kw_items str_hash (map_to_list kw) with
           | Some _ => KeyOk (MFs (args_or_none args) kw)
           | None => KeyRaise (TypeError "unhashable type")   (* building the frozenset *)
           end
  | KeyArgs => KeyOk (MV (VTuple args))
  end.

Definition memoize (f : pyfunc) (cache : option memo_cache)
    (key : option (list V -> kwdict -> keyres)) : memo :=
  mkMemo f
    (match key with Some k => k | None => default_key (memo_keykind f) end)
    (match cache with Some c => c | None => [] end).

(** [memof] called with [args] and [kwargs]: the memoized function with its cache as
    updated, and the result. *)
Definition memof_call (m : memo) (args : list V) (kw : kwdict)
    : memo * (list nat * outcome) :=
  match m_key m args kw with
  | KeyRaise e => (m, ([], ORaise e))
  | KeyOk k =>
      match mkey_hash k with
      | None => (m, ([], ORaise (TypeError "Arguments to memoized function must be hashable")))
      | Some _ =>
          match cache_lookup (m_cache m) k with
          | Some v => (m, ([], ORet v))
          | None =>
              let (t, o) := call_obj (m_func m) args kw in
              match o with
              | ORet v => (mkMemo (m_func m) (m_key m) (cache_store (m_cache m) k v), (t, ORet v))
              | ORaise e => (m, (t, ORaise e))
              end
          end
      end
  end.

End Memoize.

(** ** [curry.__signature__] (functoolz.py 358-394) *)

(** [skip]: the leading parameters, at most [n], before any [*args]. *)
Fixpoint sig_skip (ps : signature) (n : nat) : nat :=
  match n, ps with
  | O, _ | _, [] => O
  | S n', p :: ps' => if kind_eqb (p_kind p) VAR_POSITIONAL then O else S (sig_skip ps' n')
  end.

(** The loop building [newparams]; every parameter it keeps that is not
    variadic gets a default ([keywords[name]] or [no_default]). *)
Fixpoint curry_params (keywords : kwdict) (kwonly : bool) (ps : signature) : signature :=
  match ps with
  | [] => []
  | p :: ps' =>
      if kind_eqb (p_kind p) VAR_KEYWORD then p :: curry_params keywords kwonly ps'
      else if kind_eqb (p_kind p) VAR_POSITIONAL then
        if kwonly then curry_params keywords kwonly ps'
        else p :: curry_params keywords kwonly ps'
      else if in_kwargs (p_name p) keywords then
        mkParam (p_name p) KEYWORD_ONLY true :: curry_params keywords true ps'
      else
        mkParam (p_name p) (if kwonly then KEYWORD_ONLY else p_kind p) true
          :: curry_params keywords kwonly ps'
  end.

Section CurrySignature.

Variable registry : nat -> option signature.

(** [SigTypeError] from the check is 'curry object has incorrect
    arguments'; [sig.replace] runs the ordering checks of
    [Signature.__init__] ([SigValueError]). *)
Definition curry_signature (self : curry) : sig_outcome :=
  match inspect_signature (c_func self) with
  | SigOk s =>
      let args := c_args self in
      let keywords := c_keywords self in
      if is_False (is_partial_args registry (c_func self) args keywords (Some s)) then SigTypeError
      else
        let newparams := curry_params keywords false (skipn (sig_skip s (length args)) s) in
        if sig_wf newparams then SigOk newparams else SigValueError
  | e => e
  end.

End CurrySignature.

(** ** Example programs *)

Definition req (n : string) : param := mkParam n POSITIONAL_OR_KEYWORD false.
Definition kwonly_req (n : string) : param := mkParam n KEYWORD_ONLY false.

(** [def add(a, b): return a + b] *)
Definition add_body (b : arguments) : outcome :=
  match b !! "a"%string, b !! "b"%string with
  | Some (BArg (VInt x)), Some (BArg (VInt y)) => ORet (VInt (x + y))
  | Some (BArg (VStr x)), Some (BArg (VStr y)) => ORet (VStr (x ++ y))
  | _, _ => ORaise (TypeError "unsupported operand type(s) for +")
  end.

Definition py_add : pyfunc := PFun 1 "example" "add" [req "a"; req "b"] add_body.

Definition curry_of (f : pyfunc) : curry := mkCurry f [] ∅ None None.

(** [def pick(a, *, c): return a] *)
Definition pick_body (b : arguments) : outcome :=
  match b !! "a"%string with
  | Some (BArg v) => ORet v
  | _ => ORaise (OtherError "KeyError" "a")
  end.

Definition py_pick : pyfunc := PFun 2 "example" "pick" [req "a"; kwonly_req "c"] pick_body.

(** A wrapper object with [func], [args] and [keywords] attributes whose
    [args] is a list, not a tuple. *)
Definition list_args_wrapper : pyfunc :=
  PObj 3 true (Some py_add) (Some (VList [VInt 1])) (Some None) SigValueError
       (fun _ _ => ([], ORet VNone)).


(** [def neg(x): return -x] *)
Definition neg_body (b : arguments) : outcome :=
  match b !! "x"%string with
  | Some (BArg (VInt x)) => ORet (VInt (- x))
  | _ => ORaise (TypeError "bad operand type for unary -")
  end.

Definition py_neg : pyfunc := PFun 12 "example" "neg" [req "x"] neg_body.



(** [def add3(self, a, b): return a + b] in a class, and the bound method
    [acc.add3] of its instance 7. *)
Definition py_add3 : pyfunc :=
  PFun 10 "example" "Acc.add3" [req "self"; req "a"; req "b"] add_body.
Definition meth_add3 : pyfunc := PMethod 11 7 py_add3.

(** An instance of a wrapper class whose [__signature__] is that of [add]
    and whose [__call__] runs code of its own (event 30) before returning
    [add] called with the same arguments. *)
Definition py_logged : pyfunc :=
  PObj 30 true None None None (SigOk [req "a"; req "b"])
       (fun args kw => let '(t, o) := py_call py_add args kw in (30%nat :: t, o)).

(** A module [example] with [@curry def neg(x)] (the curry 9),
    [add = curry(add)] (the curry 5), and [@curry class Calc] (the curry 3)
    whose member [add] is [@curry def add(a, b)] (the curry 6, qualified
    name [Calc.add]). *)
Definition py_calc_add : pyfunc := PFun 21 "example" "Calc.add" [req "a"; req "b"] add_body.
Definition py_calc : pyfunc :=
  PObj 20 true None None None (SigOk []) (fun _ _ => ([], ORet (VObj 20))).
Definition calc_attrs : nat -> list (string * pobj) :=
  fun n => if Nat.eqb n 20 then [("add"%string, OCurry 6 (curry_of py_calc_add))] else [].
Definition example_module : pobj :=
  ONs 0 [("neg"%string, OCurry 9 (curry_of py_neg));
         ("add"%string, OCurry 5 (curry_of py_add));
         ("Calc"%string, OCurry 3 (curry_of py_calc))].
Definition example_modules : modules := [("example"%string, example_module)].

(** [def keep(a, b=None): return a] *)
Definition py_keep : pyfunc :=
  PFun 8 "example" "keep" [req "a"; mkParam "b" POSITIONAL_OR_KEYWORD true] pick_body.

(** An empty builtin registry, and no answers from it. *)
Definition no_registry : nat -> option signature := fun _ => None.
Definition no_answer : pyfunc -> option bool := fun _ => None.
Definition no_arity : nat -> pyfunc -> option bool := fun _ _ => None.

(** A [str.__hash__] for one hash seed. *)
Definition zero_hash : string -> Z := fun _ => 0.

Definition memo_of (f : pyfunc) : memo :=
  memoize no_registry no_answer no_arity zero_hash f None None.

(** [issubclass] restricted to a class and itself. *)
Definition same_class : string -> string -> bool := String.eqb.

(** * Proofs *)

(** ** Binding: a complete binding is also a partial one *)

Lemma bind_pos_mono (kw : kwdict) (ps : signature) (args : list V) (acc : arguments) r :
  bind_pos false kw ps args acc = Some r -> bind_pos true kw ps args acc = Some r.
Proof.
  revert args acc. induction ps as [|p ps IH]; intros args acc H; [exact H|].
  destruct args as [|a args']; simpl in *.
  - destruct (kind_eqb (p_kind p) VAR_POSITIONAL); [exact H|].
    destruct (in_kwargs (p_name p) kw); [exact H|].
    destruct (kind_eqb (p_kind p) VAR_KEYWORD || p_has_default p); [exact H|].
    discriminate.
  - destruct (kind_eqb (p_kind p) VAR_KEYWORD || kind_eqb (p_kind p) KEYWORD_ONLY); [exact H|].
    destruct (kind_eqb (p_kind p) VAR_POSITIONAL); [exact H|].
    destruct (in_kwargs (p_name p) kw && negb (kind_eqb (p_kind p) POSITIONAL_ONLY)); [exact H|].
    apply IH, H.
Qed.

Lemma bind_kw_mono (ps : signature) (kw : kwdict) (kp : option string) (acc : arguments) r :
  bind_kw false ps kw kp acc = Some r -> bind_kw true ps kw kp acc = Some r.
Proof.
  revert kw kp acc. induction ps as [|p ps IH]; intros kw kp acc H; [exact H|].
  simpl in *.
  destruct (kind_eqb (p_kind p) VAR_KEYWORD); [apply IH, H|].
  destruct (kind_eqb (p_kind p) VAR_POSITIONAL); [apply IH, H|].
  destruct (kw !! p_name p) as [v|].
  - destruct (kind_eqb (p_kind p) POSITIONAL_ONLY); [discriminate|]. apply IH, H.
  - destruct (p_has_default p); simpl in *; [apply IH, H|discriminate].
Qed.

Lemma sig_bind_mono (s : signature) (args : list V) (kw : kwdict) r :
  sig_bind false s args kw = Some r -> sig_bind true s args kw = Some r.
Proof.
  unfold sig_bind. destruct (bind_pos false kw s args ∅) as [[rest acc]|] eqn:E;
    [|discriminate].
  rewrite (bind_pos_mono _ _ _ _ _ E). apply bind_kw_mono.
Qed.

Lemma is_Some_bind_mono (s : signature) (args : list V) (kw : kwdict) :
  bool_decide (is_Some (sig_bind false s args kw)) = true ->
  bool_decide (is_Some (sig_bind true s args kw)) = true.
Proof.
  rewrite !bool_decide_eq_true. intros [r Hr]. exists r. by apply sig_bind_mono.
Qed.

(** ** The decision of [_should_curry] *)

Lemma union_truthy (kw K : kwdict) :
  kw ∪ (if kw_truthy (Some K) then from_option id ∅ (Some K) else ∅) = kw ∪ K.
Proof.
  unfold kw_truthy. destruct (bool_decide (K = ∅)) eqn:E; simpl; [|reflexivity].
  apply bool_decide_eq_true in E. subst K. reflexivity.
Qed.

Lemma combined_kwargs (kw K : kwdict) :
  (if bool_decide (K = ∅) then kw else kw ∪ K) = kw ∪ K.
Proof.
  destruct (bool_decide (K = ∅)) eqn:E; [|reflexivity].
  apply bool_decide_eq_true in E. subst K. by rewrite (right_id_L ∅ (∪)).
Qed.

Lemma curry_bind_flat (self : curry) (args : list V) (kw : kwdict) :
  py_callable (c_func self) = true ->
  curry_bind self args kw =
    Some (mkCurry (c_func self) (c_args self ++ args) (kw ∪ c_keywords self) None None).
Proof.
  intros Hc. unfold curry_bind, curry_init. simpl. rewrite Hc.
  unfold kw_truthy. destruct (bool_decide (c_keywords self = ∅)) eqn:E; simpl;
    [|reflexivity].
  apply bool_decide_eq_true in E. rewrite E. reflexivity.
Qed.

Lemma should_curry_decision reg (self : curry) (args : list V) (kw : kwdict) (e : exn) :
  cache_consistent reg self ->
  fst (should_curry reg self args kw e) = spec_should_curry reg self args kw.
Proof.
  intros Hcache. unfold should_curry, spec_should_curry, resolved_sigspec.
  rewrite combined_kwargs.
  set (A := c_args self ++ args). set (K := kw ∪ c_keywords self).
  destruct (c_sigspec self) as [s|] eqn:Hs.
  - rewrite (Hcache s Hs). unfold is_partial_args, is_valid_args, has_varargs; simpl.
    destruct (bool_decide (is_Some (sig_bind true s A K))) eqn:Hp; simpl; [|reflexivity].
    destruct (has_var_positional s); simpl; [reflexivity|].
    destruct (bool_decide (is_Some (sig_bind false s A K))); reflexivity.
  - simpl. unfold signature_or_spec.
    destruct (inspect_signature (c_func self)) as [s'| |] eqn:Hi.
    + unfold is_partial_args, is_valid_args, has_varargs; simpl.
      destruct (bool_decide (is_Some (sig_bind true s' A K))); simpl; [|reflexivity].
      destruct (has_var_positional s'); simpl; [reflexivity|].
      destruct (bool_decide (is_Some (sig_bind false s' A K))); reflexivity.
    + destruct (reg (py_id (c_func self))) as [s'|] eqn:Hr.
      * unfold is_partial_args, is_valid_args, has_varargs; simpl.
        destruct (bool_decide (is_Some (sig_bind true s' A K))); simpl; [|reflexivity].
        destruct (has_var_positional s'); simpl; [reflexivity|].
        destruct (bool_decide (is_Some (sig_bind false s' A K))); reflexivity.
      * unfold is_partial_args, is_valid_args, has_varargs, check_sigspec,
          sigs_is_partial_args, sigs_has_varargs; rewrite Hi, Hr; reflexivity.
    + destruct (reg (py_id (c_func self))) as [s'|] eqn:Hr.
      * unfold is_partial_args, is_valid_args, has_varargs; simpl.
        destruct (bool_decide (is_Some (sig_bind true s' A K))); simpl; [|reflexivity].
        destruct (has_var_positional s'); simpl; [reflexivity|].
        destruct (bool_decide (is_Some (sig_bind false s' A K))); reflexivity.
      * unfold is_partial_args, is_valid_args, has_varargs, check_sigspec,
          has_signature_get, in_registry; rewrite Hi, Hr; reflexivity.
Qed.

Lemma should_curry_fields reg (self : curry) (args : list V) (kw : kwdict) (e : exn) :
  c_func (snd (should_curry reg self args kw e)) = c_func self /\
  c_args (snd (should_curry reg self args kw e)) = c_args self /\
  c_keywords (snd (should_curry reg self args kw e)) = c_keywords self.
Proof.
  unfold should_curry.
  destruct (c_sigspec self); simpl;
  repeat match goal with
         | |- context [if ?b then _ else _] => destruct b
         end; simpl; auto.
Qed.

Lemma dunder_call_on_type_error reg (self : curry) (args : list V) (kw : kwdict)
    (tr : list nat) (m : string) :
  cache_consistent reg self ->
  py_callable (c_func self) = true ->
  curry_call self args kw = (tr, ORaise (TypeError m)) ->
  snd (fst (curry_dunder_call reg self args kw)) = tr /\
  snd (curry_dunder_call reg self args kw) =
    (if spec_should_curry reg self args kw
     then CCurried (mkCurry (c_func self) (c_args self ++ args) (kw ∪ c_keywords self) None None)
     else CRaise (TypeError m)).
Proof.
  intros Hcache Hc Hcall.
  unfold curry_dunder_call. rewrite Hcall.
  pose proof (should_curry_decision reg self args kw (TypeError m) Hcache) as Hd.
  pose proof (should_curry_fields reg self args kw (TypeError m)) as (Hf & Ha & Hk).
  destruct (should_curry reg self args kw (TypeError m)) as [b self'] eqn:E.
  simpl in Hd, Hf, Ha, Hk. subst b.
  destruct (spec_should_curry reg self args kw); simpl; [|split; reflexivity].
  rewrite curry_bind_flat by (rewrite Hf; exact Hc).
  rewrite Hf, Ha, Hk. split; reflexivity.
Qed.

(** C1.  When the direct call of a curry raises [TypeError], [__call__]
    decides in this order: partial-binding impossible -> the error
    propagates; variadic status unknown or true -> a new curry holding the
    combined arguments; complete binding impossible -> a new curry; else
    the error propagates.  For [add(a, b) = a + b], [curry(add)('x', 2)]
    raises the [TypeError] of ['x' + 2]. *)
Theorem curry_call_decision_order reg (self : curry) (args : list V) (kw : kwdict)
    (tr : list nat) (m : string) :
  cache_consistent reg self ->
  py_callable (c_func self) = true ->
  curry_call self args kw = (tr, ORaise (TypeError m)) ->
  snd (curry_dunder_call reg self args kw) =
    (if spec_should_curry reg self args kw
     then CCurried (mkCurry (c_func self) (c_args self ++ args) (kw ∪ c_keywords self) None None)
     else CRaise (TypeError m)) /\
  snd (curry_dunder_call reg (curry_of py_add) [VStr "x"; VInt 2] ∅) =
    CRaise (TypeError "unsupported operand type(s) for +").
Proof.
  intros Hcache Hc Hcall. split; [|vm_compute; reflexivity].
  apply (dunder_call_on_type_error reg self args kw tr m Hcache Hc Hcall).
Qed.

Lemma curry_call_decision_order_witness :
  snd (curry_dunder_call (fun _ => None) (curry_of py_add) [VStr "x"; VInt 2] ∅) =
    (if spec_should_curry (fun _ => None) (curry_of py_add) [VStr "x"; VInt 2] ∅
     then CCurried (mkCurry py_add ([] ++ [VStr "x"; VInt 2]) (∅ ∪ ∅) None None)
     else CRaise (TypeError "unsupported operand type(s) for +")) /\
  snd (curry_dunder_call (fun _ => None) (curry_of py_add) [VStr "x"; VInt 2] ∅) =
    CRaise (TypeError "unsupported operand type(s) for +").
Proof.
  apply (curry_call_decision_order (fun _ => None) (curry_of py_add)
           [VStr "x"; VInt 2] ∅ [1%nat] "unsupported operand type(s) for +").
  - intros s Hs. discriminate Hs.
  - reflexivity.
  - vm_compute. reflexivity.
Defined.

(** C5.  Whenever [is_valid_args] answers [True], [is_partial_args]
    answers [True] for the same callable, arguments and signature. *)
Theorem valid_args_implies_partial_args reg (f : pyfunc) (args : list V) (kw : kwdict)
    (sigspec : option signature) :
  is_valid_args reg f args kw sigspec = Some true ->
  is_partial_args reg f args kw sigspec = Some true.
Proof.
  unfold is_valid_args, is_partial_args, check_sigspec, sigs_is_valid_args,
    sigs_is_partial_args.
  intros H.
  destruct sigspec as [s|].
  { injection H as H. f_equal. by apply is_Some_bind_mono. }
  destruct (inspect_signature f) as [s| |].
  - injection H as H. f_equal. by apply is_Some_bind_mono.
  - destruct (reg (py_id f)) as [s|]; [|discriminate].
    injection H as H. f_equal. by apply is_Some_bind_mono.
  - destruct (has_signature_get reg f); [|discriminate].
    destruct (reg (py_id f)) as [s|]; [|discriminate].
    injection H as H. f_equal. by apply is_Some_bind_mono.
Qed.

Lemma valid_args_implies_partial_args_witness :
  is_valid_args (fun _ => None) py_add [VInt 1; VInt 2] ∅ None = Some true /\
  is_partial_args (fun _ => None) py_add [VInt 1; VInt 2] ∅ None = Some true.
Proof.
  assert (H : is_valid_args (fun _ => None) py_add [VInt 1; VInt 2] ∅ None = Some true)
    by (vm_compute; reflexivity).
  split; [exact H|].
  apply (valid_args_implies_partial_args (fun _ => None) py_add [VInt 1; VInt 2] ∅ None H).
Defined.

(** C10.  The accumulate-or-propagate decision of [_should_curry] (and the
    cache it fills) is the same whatever exception triggered it. *)
Theorem should_curry_exception_independent reg (self : curry) (args : list V)
    (kw : kwdict) (e1 e2 : exn) :
  should_curry reg self args kw e1 = should_curry reg self args kw e2.
Proof. reflexivity. Qed.

(** ** Arity: well-formed signatures start with their required positional parameters *)

Lemma sig_wf_split (s : signature) :
  forall top seen, sig_wf_from top seen s = true ->
  exists R T, s = R ++ T /\
    Forall (fun p => required_positional p = true) R /\
    Forall (fun p => required_positional p = false) T /\
    (seen = true \/ (2 <= top)%nat -> R = []).
Proof.
  induction s as [|p ps IH]; intros top seen H.
  - exists [], []. repeat split; auto.
  - simpl in H.
    destruct (Nat.ltb (kind_rank (p_kind p)) top) eqn:Hlt; [discriminate|].
    apply Nat.ltb_ge in Hlt.
    destruct (Nat.leb (kind_rank (p_kind p)) 1 && negb (p_has_default p) && seen) eqn:Hb;
      [discriminate|].
    destruct (IH _ _ H) as (R & T & -> & HR & HT & Hnil).
    destruct (required_positional p) eqn:Hp.
    + exists (p :: R), T. repeat split; auto.
      intros [Hs|Htop].
      * subst seen. unfold required_positional in Hp. rewrite Hp in Hb. discriminate.
      * exfalso. unfold required_positional in Hp.
        apply andb_true_iff in Hp as [Hp _]. apply Nat.leb_le in Hp. lia.
    + assert (R = []) as ->.
      { apply Hnil. unfold required_positional in Hp.
        destruct (Nat.leb (kind_rank (p_kind p)) 1) eqn:Hr.
        - left. destruct (p_has_default p); [|discriminate]. destruct seen; reflexivity.
        - right. apply Nat.leb_gt in Hr. lia. }
      exists [], (p :: T). repeat split; auto.
Qed.

Lemma in_kwargs_empty (n : string) : in_kwargs n ∅ = false.
Proof.
  unfold in_kwargs. apply bool_decide_eq_false. rewrite lookup_empty.
  intros [? Hx]. discriminate.
Qed.

Ltac req_param p :=
  let n := fresh "n" in let k := fresh "k" in let d := fresh "d" in
  destruct p as [n k d]; unfold required_positional in *; simpl in *;
  destruct k, d; simpl in *; try discriminate.

Lemma bind_pos_fewer_false (R T : signature) (args : list V) (acc : arguments) :
  Forall (fun p => required_positional p = true) R -> (length args < length R)%nat ->
  bind_pos false ∅ (R ++ T) args acc = None.
Proof.
  revert args acc. induction R as [|p R IH]; intros args acc HR Hlen; simpl in Hlen; [lia|].
  inversion HR as [|? ? Hp HR']; subst.
  destruct args as [|a args']; req_param p; rewrite ?in_kwargs_empty; simpl;
    try reflexivity; apply IH; auto; simpl in Hlen; lia.
Qed.

Lemma bind_pos_fewer_true (R T : signature) (args : list V) (acc : arguments) :
  Forall (fun p => required_positional p = true) R -> (length args < length R)%nat ->
  exists r, bind_pos true ∅ (R ++ T) args acc = Some r.
Proof.
  revert args acc. induction R as [|p R IH]; intros args acc HR Hlen; simpl in Hlen; [lia|].
  inversion HR as [|? ? Hp HR']; subst.
  destruct args as [|a args']; req_param p; rewrite ?in_kwargs_empty; simpl;
    try (eexists; reflexivity); apply IH; auto; simpl in Hlen; lia.
Qed.

Lemma bind_kw_true_empty (ps : signature) (kp : option string) (acc : arguments) :
  exists r, bind_kw true ps ∅ kp acc = Some r.
Proof.
  revert kp acc. induction ps as [|p ps IH]; intros kp acc; simpl.
  - rewrite bool_decide_eq_true_2 by reflexivity. eauto.
  - destruct (kind_eqb (p_kind p) VAR_KEYWORD); [apply IH|].
    destruct (kind_eqb (p_kind p) VAR_POSITIONAL); [apply IH|].
    rewrite lookup_empty. apply IH.
Qed.

Lemma bind_pos_exact (partial : bool) (R T : signature) (args : list V) (acc : arguments) :
  Forall (fun p => required_positional p = true) R -> length args = length R ->
  exists acc', bind_pos partial ∅ (R ++ T) args acc = bind_pos partial ∅ T [] acc'.
Proof.
  revert args acc. induction R as [|p R IH]; intros args acc HR Hlen.
  - destruct args; [|discriminate]. eauto.
  - inversion HR as [|? ? Hp HR']; subst.
    destruct args as [|a args']; [discriminate|].
    req_param p; rewrite ?in_kwargs_empty; simpl; apply IH; auto.
Qed.

(** After the required positional parameters, with no keywords and no
    required keyword-only parameter, binding succeeds. *)
Lemma bind_kw_false_rest (T : signature) (kp : option string) (acc : arguments) :
  Forall (fun p => required_positional p = false) T ->
  Forall (fun p => required_kwonly p = false) T ->
  exists r, bind_kw false T ∅ kp acc = Some r.
Proof.
  revert kp acc. induction T as [|p T IH]; intros kp acc H1 H2; simpl.
  - rewrite bool_decide_eq_true_2 by reflexivity. eauto.
  - inversion H1; inversion H2; subst.
    destruct p as [n k d]; unfold required_positional, required_kwonly in *; simpl in *.
    destruct k, d; simpl in *; try discriminate; rewrite ?lookup_empty; apply IH; auto.
Qed.

Lemma bind_rest_complete (T : signature) (acc : arguments) :
  Forall (fun p => required_positional p = false) T ->
  Forall (fun p => required_kwonly p = false) T ->
  exists r, match bind_pos false ∅ T [] acc with
            | None => None
            | Some (rest, acc) => bind_kw false rest ∅ None acc
            end = Some r.
Proof.
  intros H1 H2. destruct T as [|p T]; simpl.
  - rewrite bool_decide_eq_true_2 by reflexivity. eauto.
  - rewrite in_kwargs_empty.
    inversion H1; inversion H2; subst.
    destruct p as [n k d]; unfold required_positional, required_kwonly in *; simpl in *.
    destruct k, d; simpl in *; try discriminate;
      apply bind_kw_false_rest; auto; constructor; simpl; auto.
Qed.

Lemma filter_required_split (R T : signature) :
  Forall (fun p => required_positional p = true) R ->
  Forall (fun p => required_positional p = false) T ->
  num_required_of (R ++ T) = length R.
Proof.
  intros HR HT. unfold num_required_of. rewrite List.filter_app.
  assert (List.filter required_positional R = R) as ->.
  { induction HR as [|p R Hp _ IH]; simpl; [reflexivity|]. rewrite Hp, IH. reflexivity. }
  assert (List.filter required_positional T = []) as ->.
  { induction HT as [|p T Hp _ IH]; simpl; [reflexivity|]. rewrite Hp, IH. reflexivity. }
  by rewrite app_nil_r.
Qed.

Lemma empty_union_empty : (∅ ∪ ∅ : kwdict) = ∅.
Proof. by rewrite (left_id_L ∅ (∪)). Qed.

Lemma curry_init_partial (i : cinput) (args : list V) (kw : kwdict)
    (g : pyfunc) (a : list V) (k : option kwdict) :
  input_callable i = true ->
  partial_parts i = Some (g, a, k) ->
  curry_init i args kw =
    if py_callable g then Some (mkCurry g (a ++ args) (kw ∪ from_option id ∅ k) None None)
    else None.
Proof.
  intros Hi Hp. unfold curry_init. rewrite Hi, Hp. cbv beta iota.
  assert (Hk : kw ∪ (if kw_truthy k then from_option id ∅ k else ∅) =
               kw ∪ from_option id ∅ k).
  { destruct k as [K|]; [apply union_truthy | reflexivity]. }
  rewrite Hk. reflexivity.
Qed.

Lemma curry_init_plain (f : pyfunc) (args : list V) (kw : kwdict) :
  partial_parts (FIn f) = None ->
  curry_init (FIn f) args kw = if py_callable f then Some (mkCurry f args kw None None) else None.
Proof.
  intros Hp. unfold curry_init. rewrite Hp.
  change (input_callable (FIn f)) with (py_callable f).
  destruct (py_callable f); reflexivity.
Qed.

(** ** Callables that bind before running *)

Lemma binds_then_runs_fun (i : nat) (m q : string) (s : signature) (body : arguments -> outcome) :
  binds_then_runs (PFun i m q s body) s i.
Proof.
  intros args. cbn [py_call]. split.
  - intros ->. eauto.
  - intros [b ->]. reflexivity.
Qed.

Lemma bind_kw_acc_none (partial : bool) (ps : signature) :
  forall kw kp acc acc', bind_kw partial ps kw kp acc = None -> bind_kw partial ps kw kp acc' = None.
Proof.
  induction ps as [|p ps IH]; intros kw kp acc acc' H; simpl in *.
  - destruct (bool_decide (kw = ∅)); [discriminate|]. destruct kp; [discriminate|reflexivity].
  - destruct (kind_eqb (p_kind p) VAR_KEYWORD); [eauto|].
    destruct (kind_eqb (p_kind p) VAR_POSITIONAL); [eauto|].
    destruct (kw !! p_name p).
    + destruct (kind_eqb (p_kind p) POSITIONAL_ONLY); [reflexivity|eauto].
    + destruct (negb partial && negb (p_has_default p)); [reflexivity|eauto].
Qed.

Lemma bind_pos_acc (partial : bool) (kw : kwdict) (ps : signature) :
  forall args acc acc',
  option_map fst (bind_pos partial kw ps args acc) = option_map fst (bind_pos partial kw ps args acc').
Proof.
  induction ps as [|p ps IH]; intros [|a args] acc acc'; simpl; try reflexivity;
    repeat case_match; try reflexivity; apply IH.
Qed.

(** Whether binding fails does not depend on the arguments already bound. *)
Lemma bind_none_acc (partial : bool) (kw : kwdict) (ps : signature) (args : list V)
    (acc acc' : arguments) :
  match bind_pos partial kw ps args acc with
  | None => None
  | Some (rest, a) => bind_kw partial rest kw None a
  end = None ->
  match bind_pos partial kw ps args acc' with
  | None => None
  | Some (rest, a) => bind_kw partial rest kw None a
  end = None.
Proof.
  pose proof (bind_pos_acc partial kw ps args acc acc') as E. intros H.
  destruct (bind_pos partial kw ps args acc) as [[r1 a1]|],
           (bind_pos partial kw ps args acc') as [[r2 a2]|]; simpl in E; try discriminate;
    [|reflexivity].
  injection E as <-. exact (bind_kw_acc_none _ _ _ _ _ _ H).
Qed.

(** A bound method's call binds [self] to the first parameter: it fails to
    bind exactly when the arguments fail to bind to [_signature_bound_method]. *)
Lemma method_bind_none (s0 s : signature) (self : nat) (args : list V) :
  bound_method_sig s0 = SigOk s ->
  (sig_bind false s0 (VObj self :: args) ∅ = None <-> sig_bind false s args ∅ = None).
Proof.
  intros Hb. destruct s0 as [|p ps]; [discriminate|]. unfold sig_bind.
  cbn [bound_method_sig] in Hb.
  destruct (p_kind p) eqn:Ek; try discriminate; injection Hb as <-; cbn [bind_pos];
    rewrite Ek; cbn [kind_eqb orb negb andb]; rewrite ?in_kwargs_empty; cbn [andb].
  - split; apply bind_none_acc.
  - split; apply bind_none_acc.
  - destruct args as [|a args]; cbn [kind_eqb orb]; split; apply bind_kw_acc_none.
Qed.

Lemma binds_then_runs_method (mid self : nat) (g : pyfunc) (s0 s : signature) (i : nat) :
  binds_then_runs g s0 i -> bound_method_sig s0 = SigOk s ->
  binds_then_runs (PMethod mid self g) s i.
Proof.
  intros Hg Hb args. cbn [py_call]. destruct (Hg (VObj self :: args)) as [H1 H2].
  pose proof (method_bind_none s0 s self args Hb) as E. split.
  - intros Hn. apply H1. by apply E.
  - intros Hs. apply H2.
    destruct (sig_bind false s0 (VObj self :: args) ∅) eqn:Ea; [eauto|].
    destruct Hs as [x Hx]. rewrite (proj1 E eq_refl) in Hx. discriminate.
Qed.

Lemma curry_call_of (f : pyfunc) (args : list V) :
  curry_call (curry_of f) args ∅ = py_call f args ∅.
Proof. unfold curry_call. cbn [c_func c_args c_keywords curry_of]. by rewrite empty_union_empty. Qed.

(** A fresh curry over a callable of known signature, called with
    arguments that can be completed but do not bind yet, returns a new
    curry when the callable raises [TypeError]; the trace is what the
    callable ran. *)
Lemma curry_accumulates_on_mismatch reg (f : pyfunc) (s : signature) (args : list V)
    (t : list nat) (m : string) :
  signature_or_spec reg f = Some s ->
  has_var_positional s = false ->
  py_callable f = true ->
  sig_bind false s args ∅ = None ->
  is_Some (sig_bind true s args ∅) ->
  py_call f args ∅ = (t, ORaise (TypeError m)) ->
  snd (fst (curry_dunder_call reg (curry_of f) args ∅)) = t /\
  snd (curry_dunder_call reg (curry_of f) args ∅) = CCurried (mkCurry f args ∅ None None).
Proof.
  intros Hsig Hvar Hc Hfalse Htrue Hcall.
  rewrite <- curry_call_of in Hcall.
  destruct (dunder_call_on_type_error reg (curry_of f) args ∅ _ _
              (fun s' Hs' => ltac:(discriminate Hs')) Hc Hcall) as [-> ->].
  split; [reflexivity|].
  assert (Hdec : spec_should_curry reg (curry_of f) args ∅ = true).
  { unfold spec_should_curry, resolved_sigspec.
    cbn [c_func c_args c_keywords c_sigspec curry_of app]. rewrite Hsig, empty_union_empty.
    unfold is_partial_args, has_varargs, is_valid_args, check_sigspec.
    rewrite Hvar, (bool_decide_eq_true_2 _ Htrue), Hfalse. reflexivity. }
  rewrite Hdec. cbn [c_func c_args c_keywords curry_of app]. by rewrite empty_union_empty.
Qed.

(** C3 (as stated: "never executes f's body") fails for a callable whose
    signature is known but whose own code runs before it fails to bind:
    [curry(logged)(1)] runs [logged]'s code (event 30), then returns a
    curry. *)
Lemma curry_fewer_args_accumulates_counterexample :
  signature_or_spec no_registry py_logged = Some [req "a"; req "b"] /\
  num_required_of [req "a"; req "b"] = 2%nat /\
  has_var_positional [req "a"; req "b"] = false /\
  snd (fst (curry_dunder_call no_registry (curry_of py_logged) [VInt 1] ∅)) = [30%nat] /\
  snd (curry_dunder_call no_registry (curry_of py_logged) [VInt 1] ∅) =
    CCurried (mkCurry py_logged [VInt 1] ∅ None None).
Proof. vm_compute. repeat split. Qed.

(** C3 (amended).  For a callable [f] whose signature is known (by
    introspection or from the registry) and well formed, with [n] required
    positional parameters and no [*args], [curry(f)] called with fewer than
    [n] positional arguments and no keywords returns a new curry holding
    those arguments whenever calling [f] raises [TypeError]; if [f] binds
    its arguments before running any code of its own ([def] functions and
    their bound methods), nothing runs. *)
Theorem curry_fewer_args_accumulates reg (f : pyfunc) (s : signature) (args : list V) :
  signature_or_spec reg f = Some s ->
  sig_wf s = true ->
  has_var_positional s = false ->
  py_callable f = true ->
  partial_parts (FIn f) = None ->
  (length args < num_required_of s)%nat ->
  curry_init (FIn f) [] ∅ = Some (curry_of f) /\
  (forall t m, py_call f args ∅ = (t, ORaise (TypeError m)) ->
     snd (fst (curry_dunder_call reg (curry_of f) args ∅)) = t /\
     snd (curry_dunder_call reg (curry_of f) args ∅) = CCurried (mkCurry f args ∅ None None)) /\
  (forall i, binds_then_runs f s i ->
     snd (fst (curry_dunder_call reg (curry_of f) args ∅)) = [] /\
     snd (curry_dunder_call reg (curry_of f) args ∅) = CCurried (mkCurry f args ∅ None None)).
Proof.
  intros Hsig Hwf Hvar Hc Hp Hlen.
  destruct (sig_wf_split s 0 false Hwf) as (R & T & Hs & HR & HT & _).
  rewrite Hs, filter_required_split in Hlen by assumption.
  assert (Hfalse : sig_bind false s args ∅ = None).
  { unfold sig_bind. rewrite Hs, bind_pos_fewer_false by assumption. reflexivity. }
  assert (Htrue : is_Some (sig_bind true s args ∅)).
  { unfold sig_bind. rewrite Hs.
    destruct (bind_pos_fewer_true R T args ∅ HR Hlen) as [[rest acc] ->].
    destruct (bind_kw_true_empty rest None acc) as [r ->]. eauto. }
  assert (Hmis : forall t m, py_call f args ∅ = (t, ORaise (TypeError m)) ->
     snd (fst (curry_dunder_call reg (curry_of f) args ∅)) = t /\
     snd (curry_dunder_call reg (curry_of f) args ∅) = CCurried (mkCurry f args ∅ None None)).
  { intros t m Hcall. exact (curry_accumulates_on_mismatch reg f s args t m
                               Hsig Hvar Hc Hfalse Htrue Hcall). }
  split; [|split; [exact Hmis|]].
  - rewrite curry_init_plain, Hc by exact Hp. reflexivity.
  - intros i Hb. destruct (proj1 (Hb args) Hfalse) as [m Hcall]. exact (Hmis _ _ Hcall).
Qed.

(** [curry(acc.add3)(1)], for the bound method [acc.add3] of
    [def add3(self, a, b)]: nothing runs and a curry is returned; and
    [curry(logged)(1)] returns a curry after [logged]'s own code ran. *)
Lemma curry_fewer_args_accumulates_witness :
  curry_init (FIn meth_add3) [] ∅ = Some (curry_of meth_add3) /\
  snd (fst (curry_dunder_call no_registry (curry_of meth_add3) [VInt 1] ∅)) = [] /\
  snd (curry_dunder_call no_registry (curry_of meth_add3) [VInt 1] ∅) =
    CCurried (mkCurry meth_add3 [VInt 1] ∅ None None) /\
  snd (curry_dunder_call no_registry (curry_of py_logged) [VInt 1] ∅) =
    CCurried (mkCurry py_logged [VInt 1] ∅ None None).
Proof.
  destruct (curry_fewer_args_accumulates no_registry meth_add3 [req "a"; req "b"] [VInt 1]
              eq_refl eq_refl eq_refl eq_refl eq_refl ltac:(vm_compute; lia))
    as (H1 & _ & H3).
  destruct (H3 10%nat (binds_then_runs_method 11 7 py_add3 _ _ 10
                         (binds_then_runs_fun 10 "example" "Acc.add3" _ add_body) eq_refl))
    as [H4 H5].
  destruct (curry_fewer_args_accumulates no_registry py_logged [req "a"; req "b"] [VInt 1]
              eq_refl eq_refl eq_refl eq_refl eq_refl ltac:(vm_compute; lia))
    as (_ & H6 & _).
  split; [exact H1|]. split; [exact H4|]. split; [exact H5|].
  exact (proj2 (H6 [30%nat] _ eq_refl)).
Defined.

(** The trace of [curry.__call__] is the trace of its first [self.call]:
    a curried result never runs anything more. *)
Lemma dunder_call_trace reg (self : curry) (args : list V) (kw : kwdict) :
  snd (fst (curry_dunder_call reg self args kw)) = fst (curry_call self args kw).
Proof.
  unfold curry_dunder_call. destruct (curry_call self args kw) as [tr o].
  destruct o as [v|[m|e m]]; simpl; try reflexivity.
  destruct (should_curry reg self args kw (TypeError m)) as [[] self'];
    [destruct (curry_bind self' args kw)|]; reflexivity.
Qed.

Lemma forallb_kwonly_Forall (s : signature) :
  forallb (fun p => negb (required_kwonly p)) s = true ->
  Forall (fun p => required_kwonly p = false) s.
Proof.
  intros H. apply List.Forall_forall. intros p Hp.
  apply forallb_forall with (x := p) in H; [|exact Hp].
  destruct (required_kwonly p); [discriminate|reflexivity].
Qed.

(** C4 (as stated: "curry(f) called with exactly n positional arguments
    invokes f exactly once", n the count of [num_required_args]) fails for
    [def pick(a, *, c)]: n is 1, yet [curry(pick)(1)] runs nothing and
    returns a curry, because binding also needs the keyword-only [c]. *)
Lemma curry_exact_args_calls_once_counterexample :
  num_required_of [req "a"; kwonly_req "c"] = 1%nat /\
  has_var_positional [req "a"; kwonly_req "c"] = false /\
  curry_init (FIn py_pick) [] ∅ = Some (curry_of py_pick) /\
  snd (fst (curry_dunder_call (fun _ => None) (curry_of py_pick) [VInt 1] ∅)) = [] /\
  snd (curry_dunder_call (fun _ => None) (curry_of py_pick) [VInt 1] ∅) =
    CCurried (mkCurry py_pick [VInt 1] ∅ None None).
Proof. vm_compute. repeat split. Qed.

Lemma bind_pos_true_nil (T : signature) (acc : arguments) :
  exists r, bind_pos true ∅ T [] acc = Some r.
Proof.
  destruct T as [|p T]; simpl; [eauto|]. rewrite in_kwargs_empty.
  repeat case_match; eauto.
Qed.

Lemma bind_kw_kwonly_none (T : signature) (kp : option string) (acc : arguments) :
  existsb required_kwonly T = true -> bind_kw false T ∅ kp acc = None.
Proof.
  revert kp acc. induction T as [|p T IH]; intros kp acc H; simpl in H |- *; [discriminate|].
  destruct p as [n k d]; unfold required_kwonly in H; simpl in H |- *.
  destruct k, d; simpl in H |- *; rewrite ?lookup_empty; simpl; auto.
Qed.

(** With a required keyword-only parameter left and no keywords, binding
    fails. *)
Lemma bind_rest_kwonly_none (T : signature) (acc : arguments) :
  existsb required_kwonly T = true ->
  match bind_pos false ∅ T [] acc with
  | None => None
  | Some (rest, a) => bind_kw false rest ∅ None a
  end = None.
Proof.
  intros H. destruct T as [|p T]; [discriminate|]. simpl. rewrite in_kwargs_empty.
  pose proof (bind_kw_kwonly_none (p :: T) None acc H) as Hp.
  destruct p as [n k d]; unfold required_kwonly in H; simpl in H, Hp |- *.
  destruct k, d; simpl in H |- *; try exact Hp; reflexivity.
Qed.

Lemma required_positional_not_kwonly (R : signature) :
  Forall (fun p => required_positional p = true) R -> existsb required_kwonly R = false.
Proof.
  induction 1 as [|p R Hp _ IH]; simpl; [reflexivity|]. rewrite IH, orb_false_r.
  destruct p as [n k d]; unfold required_positional, required_kwonly in *; simpl in *.
  destruct k, d; simpl in *; reflexivity || discriminate.
Qed.

(** C4 (amended).  For a callable [f] whose signature is known (by
    introspection or from the registry) and well formed, with [n] required
    positional parameters and no [*args], [curry(f)] called with exactly [n]
    positional arguments and no keywords: when no keyword-only parameter is
    required, the arguments bind, [f] is called exactly once (the call's
    trace is that of one call of [f]; [[i]] when [f] binds before running
    its code [i]) and [f]'s result is returned; when a keyword-only
    parameter is required and [f] binds before running its code, nothing
    runs and a new curry holding the arguments is returned. *)
Theorem curry_exact_args_calls_once reg (f : pyfunc) (s : signature) (args : list V) :
  signature_or_spec reg f = Some s ->
  sig_wf s = true ->
  has_var_positional s = false ->
  py_callable f = true ->
  partial_parts (FIn f) = None ->
  length args = num_required_of s ->
  curry_init (FIn f) [] ∅ = Some (curry_of f) /\
  (forallb (fun p => negb (required_kwonly p)) s = true ->
     is_Some (sig_bind false s args ∅) /\
     snd (fst (curry_dunder_call reg (curry_of f) args ∅)) = fst (py_call f args ∅) /\
     (forall t v, py_call f args ∅ = (t, ORet v) ->
        snd (curry_dunder_call reg (curry_of f) args ∅) = CRet v) /\
     (forall i, binds_then_runs f s i ->
        snd (fst (curry_dunder_call reg (curry_of f) args ∅)) = [i])) /\
  (existsb required_kwonly s = true ->
     forall i, binds_then_runs f s i ->
     snd (fst (curry_dunder_call reg (curry_of f) args ∅)) = [] /\
     snd (curry_dunder_call reg (curry_of f) args ∅) = CCurried (mkCurry f args ∅ None None)).
Proof.
  intros Hsig Hwf Hvar Hc Hp Hlen.
  destruct (sig_wf_split s 0 false Hwf) as (R & T & Hs & HR & HT & _).
  rewrite Hs, filter_required_split in Hlen by assumption.
  split; [|split].
  - rewrite curry_init_plain, Hc by exact Hp. reflexivity.
  - intros Hkw. apply forallb_kwonly_Forall in Hkw. rewrite Hs in Hkw.
    apply Forall_app in Hkw as [_ HkT].
    assert (Hb : is_Some (sig_bind false s args ∅)).
    { unfold sig_bind. rewrite Hs.
      destruct (bind_pos_exact false R T args ∅ HR Hlen) as [acc' ->].
      destruct (bind_rest_complete T acc' HT HkT) as [r ->]. eauto. }
    split; [exact Hb|].
    assert (Htr : snd (fst (curry_dunder_call reg (curry_of f) args ∅)) = fst (py_call f args ∅)).
    { by rewrite dunder_call_trace, curry_call_of. }
    split; [exact Htr|]. split.
    + intros t v Hv. unfold curry_dunder_call. rewrite curry_call_of, Hv. reflexivity.
    + intros i Hbr. rewrite Htr. exact (proj2 (Hbr args) Hb).
  - intros Hkw i Hbr.
    rewrite Hs, existsb_app, required_positional_not_kwonly in Hkw by exact HR.
    simpl in Hkw.
    assert (Hfalse : sig_bind false s args ∅ = None).
    { unfold sig_bind. rewrite Hs.
      destruct (bind_pos_exact false R T args ∅ HR Hlen) as [acc' ->].
      exact (bind_rest_kwonly_none T acc' Hkw). }
    assert (Htrue : is_Some (sig_bind true s args ∅)).
    { unfold sig_bind. rewrite Hs.
      destruct (bind_pos_exact true R T args ∅ HR Hlen) as [acc' ->].
      destruct (bind_pos_true_nil T acc') as [[rest acc] ->].
      destruct (bind_kw_true_empty rest None acc) as [r ->]. eauto. }
    destruct (proj1 (Hbr args) Hfalse) as [m Hcall].
    exact (curry_accumulates_on_mismatch reg f s args [] m Hsig Hvar Hc Hfalse Htrue Hcall).
Qed.

(** [curry(acc.add3)(1, 2)] runs [add3] once and returns 3;
    [curry(pick)(1)] runs nothing and returns a curry. *)
Lemma curry_exact_args_calls_once_witness :
  snd (fst (curry_dunder_call no_registry (curry_of meth_add3) [VInt 1; VInt 2] ∅)) = [10%nat] /\
  snd (curry_dunder_call no_registry (curry_of meth_add3) [VInt 1; VInt 2] ∅) = CRet (VInt 3) /\
  snd (fst (curry_dunder_call no_registry (curry_of py_pick) [VInt 1] ∅)) = [] /\
  snd (curry_dunder_call no_registry (curry_of py_pick) [VInt 1] ∅) =
    CCurried (mkCurry py_pick [VInt 1] ∅ None None).
Proof.
  destruct (curry_exact_args_calls_once no_registry meth_add3 [req "a"; req "b"]
              [VInt 1; VInt 2] eq_refl eq_refl eq_refl eq_refl eq_refl eq_refl)
    as (_ & H1 & _).
  destruct (H1 eq_refl) as (_ & _ & H2 & H3).
  destruct (curry_exact_args_calls_once no_registry py_pick [req "a"; kwonly_req "c"]
              [VInt 1] eq_refl eq_refl eq_refl eq_refl eq_refl eq_refl)
    as (_ & _ & H4).
  destruct (H4 eq_refl 2%nat (binds_then_runs_fun 2 "example" "pick" _ pick_body)) as [H5 H6].
  split; [|split; [|split; [exact H5|exact H6]]].
  - apply H3. exact (binds_then_runs_method 11 7 py_add3 _ _ 10
                       (binds_then_runs_fun 10 "example" "Acc.add3" _ add_body) eq_refl).
  - apply (H2 [10%nat]). reflexivity.
Defined.

(** C2 (as stated: any wrapper exposing [func], [args] and [keywords] is
    flattened) fails for a wrapper whose [args] is a list:
    [is_partial_function] requires a tuple, so the new curry wraps the
    wrapper itself and keeps only the outer arguments. *)
Lemma curry_flattens_one_level_counterexample :
  curry_init (FIn list_args_wrapper) [VInt 2] ∅ =
    Some (mkCurry list_args_wrapper [VInt 2] ∅ None None) /\
  list_args_wrapper <> py_add.
Proof. split; [reflexivity | discriminate]. Qed.

(** C2 (amended).  Constructing a curry from a curry, or from a callable
    wrapper whose [func], [args] and [keywords] attributes exist with [args]
    a tuple, flattens one level: the target is the wrapper's [func], the
    positional arguments are the wrapper's followed by the new ones, and the
    keywords are merged with the new ones winning.  A callable wrapper whose
    [args] is not a tuple is not flattened: it becomes the target itself.
    Consequently [curry(curry(f, *a1, **k1), *a2, **k2)] is
    [curry(f, *(a1 + a2), **{**k1, **k2})]. *)
Theorem curry_flattens_one_level (i : cinput) (g : pyfunc) (a : list V) (k : option kwdict)
    (args : list V) (kw : kwdict) :
  partial_parts i = Some (g, a, k) ->
  input_callable i = true ->
  py_callable g = true ->
  curry_init i args kw = Some (mkCurry g (a ++ args) (kw ∪ from_option id ∅ k) None None) /\
  (forall oid g' av k' insp call args2 kw2,
     (forall l, av <> VTuple l) ->
     curry_init (FIn (PObj oid true (Some g') (Some av) (Some k') insp call)) args2 kw2 =
       Some (mkCurry (PObj oid true (Some g') (Some av) (Some k') insp call) args2 kw2 None None)) /\
  (forall f args1 kw1 args2 kw2 c1,
     curry_init (FIn f) args1 kw1 = Some c1 ->
     curry_init (CIn c1) args2 kw2 = curry_init (FIn f) (args1 ++ args2) (kw2 ∪ kw1)).
Proof.
  intros Hp Hi Hg. split; [|split].
  - rewrite (curry_init_partial i args kw g a k Hi Hp), Hg. reflexivity.
  - intros oid g' av k' insp call args2 kw2 Hav.
    rewrite curry_init_plain; [reflexivity|].
    destruct av; try reflexivity. exfalso. exact (Hav l eq_refl).
  - intros f args1 kw1 args2 kw2 c1 H.
    assert (Hf : py_callable f = true).
    { destruct (py_callable f) eqn:E; [reflexivity|].
      unfold curry_init in H. change (input_callable (FIn f)) with (py_callable f) in H.
      rewrite E in H. discriminate. }
    rewrite (curry_init_partial (CIn c1) args2 kw2 _ _ _ eq_refl eq_refl).
    destruct (partial_parts (FIn f)) as [[[g' a'] k']|] eqn:Hp'.
    + rewrite (curry_init_partial (FIn f) args1 kw1 g' a' k' Hf Hp') in H.
      rewrite (curry_init_partial (FIn f) (args1 ++ args2) (kw2 ∪ kw1) g' a' k' Hf Hp').
      destruct (py_callable g') eqn:Hg'; [|discriminate].
      injection H as <-. simpl. rewrite Hg', (assoc_L (∪)), app_assoc. reflexivity.
    + rewrite (curry_init_plain f args1 kw1 Hp'), Hf in H.
      rewrite (curry_init_plain f (args1 ++ args2) (kw2 ∪ kw1) Hp'), Hf.
      injection H as <-. simpl. rewrite Hf. reflexivity.
Qed.

(** [curry(curry(add, 1, b=2), 3, b=4)] is [curry(add, 1, 3, b=4)];
    [curry(curry(add, 1, b=2), 3, c=5)] is [curry(add, 1, 3, b=2, c=5)];
    the wrapper with a list for [args] is the target of its curry. *)
Lemma curry_flattens_one_level_witness :
  curry_init (CIn (mkCurry py_add [VInt 1] {["b" := VInt 2]} None None)) [VInt 3]
    {["b" := VInt 4]} = Some (mkCurry py_add [VInt 1; VInt 3] {["b" := VInt 4]} None None) /\
  curry_init (CIn (mkCurry py_add [VInt 1] {["b" := VInt 2]} None None)) [VInt 3]
    {["c" := VInt 5]} =
    curry_init (FIn py_add) [VInt 1; VInt 3] {["b" := VInt 2; "c" := VInt 5]} /\
  curry_init (FIn list_args_wrapper) [VInt 2] ∅ =
    Some (mkCurry list_args_wrapper [VInt 2] ∅ None None).
Proof.
  destruct (curry_flattens_one_level (CIn (mkCurry py_add [VInt 1] {["b" := VInt 2]} None None))
              py_add [VInt 1] (Some {["b" := VInt 2]}) [VInt 3] {["b" := VInt 4]}
              eq_refl eq_refl eq_refl) as (H1 & H2 & H3).
  split; [|split].
  - rewrite H1. vm_compute. reflexivity.
  - rewrite (H3 py_add [VInt 1] {["b" := VInt 2]} [VInt 3] {["c" := VInt 5]}
               (mkCurry py_add [VInt 1] {["b" := VInt 2]} None None) eq_refl).
    vm_compute. reflexivity.
  - apply (H2 3%nat py_add (VList [VInt 1]) None SigValueError). intros l. discriminate.
Defined.

(** C9 (as stated: the owning object becomes the first positional
    argument) fails once the curry already holds arguments: [curry(self,
    instance)] appends the instance after them. *)
Lemma curry_get_appends_instance_counterexample :
  curry_get (mkCurry py_add [VInt 1] ∅ None None) (Some (VObj 7)) =
    Some (mkCurry py_add [VInt 1; VObj 7] ∅ None None).
Proof. reflexivity. Qed.

(** C9 (amended).  Accessing a curry through an instance gives a new curry
    over the same target whose positional arguments are the stored ones
    followed by the instance (so the instance comes first among the
    arguments of the later call), with the same keywords. *)
Theorem curry_get_appends_instance (c : curry) (inst : V) :
  py_callable (c_func c) = true ->
  curry_get c (Some inst) =
    Some (mkCurry (c_func c) (c_args c ++ [inst]) (c_keywords c) None None).
Proof.
  intros Hc. unfold curry_get. change (curry_init (CIn c) [inst] ∅) with (curry_bind c [inst] ∅).
  rewrite curry_bind_flat by exact Hc. by rewrite (left_id_L ∅ (∪)).
Qed.

Lemma curry_get_appends_instance_witness :
  curry_get (mkCurry py_add [VInt 1] {["c" := VInt 2]} None None) (Some (VObj 7)) =
    Some (mkCurry py_add [VInt 1; VObj 7] {["c" := VInt 2]} None None).
Proof.
  exact (curry_get_appends_instance (mkCurry py_add [VInt 1] {["c" := VInt 2]} None None)
           (VObj 7) eq_refl).
Defined.




Lemma py_eq_v_refl : forall a : V, py_eq_v a a = true.
Proof.
  fix IH 1. intros [x|x|l|l| |x]; simpl.
  - apply Z.eqb_refl.
  - apply String.eqb_refl.
  - revert l. fix IHl 1. intros [|y ys]; simpl; [reflexivity|].
    rewrite (IH y). exact (IHl ys).
  - revert l. fix IHl 1. intros [|y ys]; simpl; [reflexivity|].
    rewrite (IH y). exact (IHl ys).
  - reflexivity.
  - apply Nat.eqb_refl.
Qed.

Lemma py_eq_dict_refl (d : kwdict) : py_eq_dict d d = true.
Proof.
  unfold py_eq_dict. rewrite Nat.eqb_refl. simpl.
  apply forallb_forall. intros [k v] Hin.
  apply (proj2 (list_elem_of_In _ _)) in Hin. apply elem_of_map_to_list in Hin.
  simpl. rewrite Hin. apply py_eq_v_refl.
Qed.


(** Induction on callables, with hypotheses for the functions of a
    [Compose]. *)
Lemma pyfunc_nested_ind (P : pyfunc -> Prop)
  (HF : forall i m q s b, P (PFun i m q s b))
  (HB : forall i m q insp sg cm call, P (PBuiltin i m q insp sg cm call))
  (HM : forall i sf g, P g -> P (PMethod i sf g))
  (HO : forall i cl fa aa ka insp call, P (PObj i cl fa aa ka insp call))
  (HC : forall i f n r, P f -> P n -> Forall P r -> P (PCompose i f n r)) :
  forall f, P f.
Proof.
  fix go 1. intros [i m q s b|i m q insp sg cm call|i sf g|i cl fa aa ka insp call|i f n r].
  - apply HF.
  - apply HB.
  - apply HM, go.
  - apply HO.
  - apply HC; [apply go|apply go|].
    revert r. fix go_l 1. intros [|x xs]; constructor; [apply go|apply go_l].
Qed.

Lemma py_eq_f_compose i j f1 n1 r1 f2 n2 r2 :
  py_eq_f (PCompose i f1 n1 r1) (PCompose j f2 n2 r2) =
  py_eq_f f1 f2 && (py_eq_f n1 n2 && py_eq_funcs r1 r2).
Proof.
  reflexivity.
Qed.



(** [==] on callables is symmetric. *)
Lemma py_eq_f_sym (f g : pyfunc) : py_eq_f f g = py_eq_f g f.
Proof.
  revert g. induction f as [i m q s b|i m q insp sg cm call|i sf f IH|i cl fa aa ka insp call
                            |i f n r IHf IHn IHr] using pyfunc_nested_ind; intros g.
  - destruct g as [| j m' q' insp' sg' [[s2 m2]|] call' | | |]; simpl;
      try reflexivity; apply Nat.eqb_sym.
  - destruct cm as [[s1 m1]|];
      destruct g as [| j m' q' insp' sg' [[s2 m2]|] call' | | |]; simpl;
      try reflexivity; try apply Nat.eqb_sym.
    by rewrite (Nat.eqb_sym s1), (Nat.eqb_sym m1).
  - destruct g as [| j m' q' insp' sg' [[s2 m2]|] call' | j sgm g | |]; simpl;
      try reflexivity.
    by rewrite (Nat.eqb_sym sf), IH.
  - destruct g as [| j m' q' insp' sg' [[s2 m2]|] call' | | |]; simpl;
      try reflexivity; apply Nat.eqb_sym.
  - destruct g as [| j m' q' insp' sg' [[s2 m2]|] call' | | | j f' n' r'];
      try reflexivity.
    rewrite !py_eq_f_compose, (IHf f'), (IHn n'). do 2 f_equal.
    revert r'. induction IHr as [|x xs Hx Hxs IHxs]; intros [|y ys]; cbn [py_eq_funcs];
      try reflexivity.
    by rewrite (Hx y), IHxs.
Qed.




Lemma hash_items_none (str_hash : string -> Z) (l : list V) (a : V) :
  In a l -> py_hash_v str_hash a = None -> hash_items str_hash l = None.
Proof.
  intros Hin Ha. induction l as [|x xs IH]; [contradiction|]. simpl.
  destruct Hin as [<-|Hin].
  - by rewrite Ha.
  - rewrite (IH Hin). by destruct (py_hash_v str_hash x).
Qed.

Lemma hash_kw_items_none (str_hash : string -> Z) (l : list (string * V)) (k : string) (v : V) :
  In (k, v) l -> py_hash_v str_hash v = None -> hash_kw_items str_hash l = None.
Proof.
  intros Hin Hv. induction l as [|[k' v'] xs IH]; [contradiction|]. simpl.
  destruct Hin as [Heq|Hin].
  - injection Heq as -> ->. by rewrite Hv.
  - rewrite (IH Hin). by destruct (py_hash_v str_hash v').
Qed.

(** C8.  If a bound positional argument or a bound keyword value is
    unhashable, [hash] of the curry raises: [curry.__hash__] catches
    nothing, so the [TypeError] reaches the caller. *)
Theorem curry_hash_unhashable_fails (str_hash : string -> Z) (c : curry) :
  (exists a, In a (c_args c) /\ py_hash_v str_hash a = None) \/
  (exists k v, c_keywords c !! k = Some v /\ py_hash_v str_hash v = None) ->
  curry_hash str_hash c = None.
Proof.
  intros [(a & Hin & Ha) | (k & v & Hk & Hv)]; unfold curry_hash.
  - rewrite (hash_items_none str_hash _ a Hin Ha).
    by destruct (py_hash_f (c_func c)).
  - assert (Hne : c_keywords c ≠ ∅) by (intros E; rewrite E, lookup_empty in Hk; discriminate).
    rewrite (bool_decide_eq_false_2 _ Hne).
    apply elem_of_map_to_list, list_elem_of_In in Hk.
    rewrite (hash_kw_items_none str_hash _ k v Hk Hv).
    destruct (py_hash_f (c_func c)), (hash_items str_hash (c_args c)); reflexivity.
Qed.

Lemma curry_hash_unhashable_fails_witness :
  curry_hash (fun _ => 0) (mkCurry py_add [VList []] ∅ None None) = None.
Proof.
  apply (curry_hash_unhashable_fails (fun _ => 0) (mkCurry py_add [VList []] ∅ None None)).
  left. exists (VList []). split; [left; reflexivity | reflexivity].
Defined.

(** ** Pickling: dotted paths and the attribute walk *)

Lemma split_on_nonempty (sep : ascii) (s : string) :
  exists w ws, split_on sep s = w :: ws.
Proof.
  induction s as [|c rest IH]; simpl; [eauto|].
  destruct (Ascii.eqb c sep); [eauto|]. destruct IH as (w & ws & ->). eauto.
Qed.

Lemma join_with_cons (sep : ascii) (w : string) (ws : list string) :
  join_with sep (w :: ws) =
    match ws with [] => w | _ => (w ++ String sep (join_with sep ws))%string end.
Proof. destruct ws; reflexivity. Qed.

Lemma join_split (sep : ascii) (s : string) : join_with sep (split_on sep s) = s.
Proof.
  induction s as [|c rest IH]; [reflexivity|]. cbn [split_on].
  destruct (split_on_nonempty sep rest) as (w & ws & E). rewrite E in IH |- *.
  destruct (Ascii.eqb c sep) eqn:Ec.
  - apply Ascii.eqb_eq in Ec. subst c.
    transitivity (String sep (join_with sep (w :: ws))); [reflexivity|]. by rewrite IH.
  - destruct ws as [|w' ws'].
    + simpl in IH |- *. by rewrite IH.
    + transitivity (String c (join_with sep (w :: w' :: ws'))); [reflexivity|]. by rewrite IH.
Qed.

Lemma split_on_app (sep : ascii) (m p : string) :
  split_on sep (m ++ String sep p) = split_on sep m ++ split_on sep p.
Proof.
  induction m as [|c m IH]; simpl.
  - by rewrite Ascii.eqb_refl.
  - destruct (Ascii.eqb c sep); [by rewrite IH|]. rewrite IH.
    destruct (split_on_nonempty sep m) as (w & ws & ->). reflexivity.
Qed.

Lemma split_on_nosep (sep : ascii) (q : string) :
  ~ In sep (list_ascii_of_string q) -> split_on sep q = [q].
Proof.
  induction q as [|c rest IH]; intros H; [reflexivity|]. simpl in H |- *.
  destruct (Ascii.eqb c sep) eqn:Ec.
  - apply Ascii.eqb_eq in Ec. subst c. tauto.
  - rewrite IH by tauto. reflexivity.
Qed.

(** [modname, qualname = path.rsplit(':', 1)] splits at the last colon. *)
Lemma rsplit1_app (sep : ascii) (m q : string) :
  ~ In sep (list_ascii_of_string q) ->
  rsplit1 sep (m ++ String sep q) = Some (m, q).
Proof.
  intros Hq. unfold rsplit1. rewrite split_on_app, (split_on_nosep sep q Hq).
  destruct (split_on_nonempty sep m) as (w & ws & E). rewrite E.
  change ((w :: ws) ++ [q]) with (w :: (ws ++ [q])).
  destruct (ws ++ [q]) as [|x l] eqn:E2; [by destruct ws|]. cbv beta iota.
  assert (Hwl : w :: x :: l = (w :: ws) ++ [q]) by (simpl; by rewrite E2).
  rewrite Hwl, removelast_last, List.last_last, <- E, join_split. reflexivity.
Qed.

Lemma list_ascii_of_string_app (s1 s2 : string) :
  list_ascii_of_string (s1 ++ s2) = list_ascii_of_string s1 ++ list_ascii_of_string s2.
Proof. induction s1 as [|c s1 IH]; simpl; [reflexivity|]. by rewrite IH. Qed.

(** The pieces of [s.split(sep)] contain no [sep] and only characters of [s]. *)
Lemma split_on_elems (sep : ascii) (s w : string) :
  In w (split_on sep s) ->
  ~ In sep (list_ascii_of_string w) /\
  (forall c, In c (list_ascii_of_string w) -> In c (list_ascii_of_string s)).
Proof.
  revert w. induction s as [|c rest IH]; intros w Hw; simpl in Hw.
  - destruct Hw as [<-|[]]. simpl. tauto.
  - destruct (Ascii.eqb c sep) eqn:Ec.
    + destruct Hw as [<-|Hw]; [simpl; tauto|].
      destruct (IH w Hw) as [H1 H2]. split; [exact H1|]. intros c' Hc'. right. auto.
    + apply Ascii.eqb_neq in Ec.
      destruct (split_on sep rest) as [|w0 ws] eqn:Es.
      * destruct Hw as [<-|[]]. simpl. split; [intros [H|[]]; auto|].
        intros c' [<-|[]]. left. reflexivity.
      * destruct Hw as [<-|Hw].
        -- destruct (IH w0 (or_introl eq_refl)) as [H1 H2]. simpl. split.
           ++ intros [H|H]; [auto|contradiction].
           ++ intros c' [<-|Hc']; [left; reflexivity|right; auto].
        -- destruct (IH w (or_intror Hw)) as [H1 H2]. split; [exact H1|].
           intros c' Hc'. right. auto.
Qed.

(** [sep.join(ws).split(sep) == ws] for a nonempty list of pieces without [sep]. *)
Lemma split_join (sep : ascii) (ws : list string) :
  ws <> [] -> Forall (fun w => ~ In sep (list_ascii_of_string w)) ws ->
  split_on sep (join_with sep ws) = ws.
Proof.
  induction ws as [|w ws IH]; intros Hne Hall; [contradiction|].
  inversion Hall as [|? ? Hw Hws]; subst.
  destruct ws as [|w' ws'].
  - simpl. by apply split_on_nosep.
  - change (join_with sep (w :: w' :: ws')) with (w ++ String sep (join_with sep (w' :: ws')))%string.
    rewrite split_on_app, split_on_nosep by exact Hw.
    rewrite IH by (discriminate || exact Hws). reflexivity.
Qed.

Lemma join_no_char (c sep : ascii) (ws : list string) :
  c <> sep -> Forall (fun w => ~ In c (list_ascii_of_string w)) ws ->
  ~ In c (list_ascii_of_string (join_with sep ws)).
Proof.
  intros Hcs Hall. induction Hall as [|w ws Hw Hws IH]; [simpl; tauto|].
  rewrite join_with_cons. destruct ws as [|w' ws']; [exact Hw|].
  rewrite list_ascii_of_string_app. simpl. intros Hin.
  apply in_app_or in Hin as [Hin|[Hin|Hin]]; [auto|auto|auto].
Qed.

(** A walk of [__reduce__] that reaches an object records a path along
    which [getattr] reaches it: the names it was given, with a [func]
    before each name looked up on a curry. *)
Lemma walk_reduce_found fattrs (parts : list string) :
  forall (o r : pobj) (attrs : list string),
  walk_reduce fattrs o parts = (Some r, attrs) ->
  getattr_path fattrs o attrs = Some r /\
  Forall (fun a => In a parts \/ a = "func"%string) attrs /\
  (parts <> [] -> attrs <> []).
Proof.
  induction parts as [|attr rest IH]; intros o r attrs H; simpl in H.
  - injection H as -> <-. split; [reflexivity|]. split; [constructor|]. tauto.
  - assert (Hw : forall o1 pre o2 r' attrs',
               py_getattr fattrs o1 attr = Some o2 ->
               walk_reduce fattrs o2 rest = (Some r', attrs') ->
               getattr_path fattrs o (pre ++ attr :: attrs') = getattr_path fattrs o1 (attr :: attrs') ->
               Forall (fun a => a = "func"%string) pre ->
               (Some r', pre ++ attr :: attrs') = (Some r, attrs) ->
               getattr_path fattrs o attrs = Some r /\
               Forall (fun a => In a (attr :: rest) \/ a = "func"%string) attrs /\
               (attr :: rest <> [] -> attrs <> [])).
    { intros o1 pre o2 r' attrs' Hg Hw Hpre Hf E. injection E as -> <-.
      destruct (IH o2 r attrs' Hw) as (Hp & Hall & _).
      split; [rewrite Hpre; simpl; by rewrite Hg|]. split.
      - apply Forall_app. split.
        + eapply Forall_impl; [exact Hf|]. intros a Ha. by right.
        + constructor; [left; left; reflexivity|].
          eapply Forall_impl; [exact Hall|]. intros a [Ha|Ha]; [left; right; exact Ha|by right].
      - intros _. by destruct pre. }
    destruct o as [cid c|g|nid nattrs]; simpl in H.
    + destruct (str_assoc attr (fattrs (py_id (c_func c)))) as [o2|] eqn:Eo; [|discriminate].
      destruct (walk_reduce fattrs o2 rest) as [[r'|] attrs'] eqn:Ew; [|discriminate].
      apply (Hw (OFunc (c_func c)) ["func"%string] o2 r' attrs'); try assumption.
      * reflexivity.
      * repeat constructor.
    + destruct (str_assoc attr (fattrs (py_id g))) as [o2|] eqn:Eo; [|discriminate].
      destruct (walk_reduce fattrs o2 rest) as [[r'|] attrs'] eqn:Ew; [|discriminate].
      apply (Hw (OFunc g) [] o2 r' attrs'); try assumption; [reflexivity|constructor].
    + destruct (str_assoc attr nattrs) as [o2|] eqn:Eo; [|discriminate].
      destruct (walk_reduce fattrs o2 rest) as [[r'|] attrs'] eqn:Ew; [|discriminate].
      apply (Hw (ONs nid nattrs) [] o2 r' attrs'); try assumption; [reflexivity|constructor].
Qed.

(** The dotted path [__reduce__] records, [modname:attr.attr...], splits
    back into the module and the attribute names. *)
Lemma reduce_path_roundtrip (m q : string) (attrs : list string) :
  ~ In ":"%char (list_ascii_of_string q) ->
  Forall (fun a => In a (split_on "." q) \/ a = "func"%string) attrs ->
  attrs <> [] ->
  rsplit1 ":" (m ++ ":" ++ join_with "." attrs) = Some (m, join_with "." attrs) /\
  split_on "." (join_with "." attrs) = attrs.
Proof.
  intros Hq Hall Hne. split.
  - apply rsplit1_app. apply join_no_char; [discriminate|].
    eapply Forall_impl; [exact Hall|]. intros a [Ha| ->].
    + intros Hc. apply (split_on_elems "." q a Ha) in Hc. contradiction.
    + simpl. intros [H|[H|[H|[H|[]]]]]; discriminate.
  - apply split_join; [exact Hne|].
    eapply Forall_impl; [exact Hall|]. intros a [Ha| ->].
    + exact (proj1 (split_on_elems "." q a Ha)).
    + simpl. intros [H|[H|[H|[H|[]]]]]; discriminate.
Qed.

Lemma same_object_refl (f : pyfunc) : same_object f f = true.
Proof. destruct f; apply Nat.eqb_refl. Qed.

Lemma curry_call_bound (self : curry) (f : pyfunc) (args : list V) (kw : kwdict) (b : V)
    (tr : list nat) (v : V) reg :
  c_func self = f -> c_args self = args -> c_keywords self = kw ->
  py_call f (args ++ [b]) kw = (tr, ORet v) ->
  snd (curry_dunder_call reg self [b] ∅) = CRet v.
Proof.
  intros Hf Ha Hk Hcall. unfold curry_dunder_call, curry_call.
  rewrite Hf, Ha, Hk, (left_id_L ∅ (∪)). simpl. by rewrite Hcall.
Qed.

(** C6.  Let [self] be a curry of a callable [f] with positional arguments
    [args] and keywords [kw], where [f] has a module and a qualified name
    (without a colon), the module is importable, and the name leads either
    to a curry over [f] (a decorator result, possibly through curried
    classes) or to [f] itself.  Then pickling [self] succeeds, unpickling
    succeeds, and the restored curry applied to [b] returns what [f]
    returns on the positional arguments [args ++ [b]] and the keywords [kw].  Unpickling returns the object found at the path
    itself exactly when it is the pickled curry; otherwise it wraps [f]
    again with the pickled arguments and keywords. *)
Theorem curry_pickle_roundtrip reg fattrs (ms : modules) (mo : pobj) (self_id : nat)
    (self : curry) (f : pyfunc) (args : list V) (kw : kwdict) (b : V) :
  c_func self = f -> c_args self = args -> c_keywords self = kw ->
  py_callable f = true -> partial_parts (FIn f) = None ->
  py_module f <> ""%string -> py_qualname f <> ""%string ->
  ~ In ":"%char (list_ascii_of_string (py_qualname f)) ->
  import_module ms (py_module f) = Some mo ->
  (exists cid c attrs,
     walk_reduce fattrs mo (split_on "." (py_qualname f)) = (Some (OCurry cid c), attrs) /\
     c_func c = f /\ (cid = self_id -> c = self)) \/
  walk_reduce fattrs mo (split_on "." (py_qualname f)) =
    (Some (OFunc f), split_on "." (py_qualname f)) ->
  exists st r c',
    encode_curry fattrs ms self_id self = Some st /\
    decode_curry fattrs ms st = Some r /\
    restored_curry r = Some c' /\
    (forall tr v, py_call f (args ++ [b]) kw = (tr, ORet v) ->
       snd (curry_dunder_call reg c' [b] ∅) = CRet v) /\
    (forall cid c attrs,
       walk_reduce fattrs mo (split_on "." (py_qualname f)) = (Some (OCurry cid c), attrs) ->
       (cid = self_id -> r = RExisting (OCurry self_id self)) /\
       (cid <> self_id -> r = RNew (mkCurry f args kw None (c_has_unknown_args self)))) /\
    (walk_reduce fattrs mo (split_on "." (py_qualname f)) =
       (Some (OFunc f), split_on "." (py_qualname f)) ->
       r = RNew (mkCurry f args kw None (c_has_unknown_args self))).
Proof.
  intros Hf Ha Hk Hc Hp Hm Hq Hcolon Himp Hcase.
  set (q := py_qualname f) in *. set (m := py_module f) in *.
  assert (Hnames : negb (String.eqb m "") && negb (String.eqb q "") = true).
  { apply String.eqb_neq in Hm, Hq. by rewrite Hm, Hq. }
  assert (Hwrap : curry_init (FIn f) args kw = Some (mkCurry f args kw None None)).
  { rewrite curry_init_plain, Hc by exact Hp. reflexivity. }
  set (cnew := mkCurry f args kw None (c_has_unknown_args self)).
  destruct Hcase as [(cid & c & attrs & Hw & Hcf & Hcid) | Hw].
  - destruct (walk_reduce_found _ _ _ _ _ Hw) as (Hg & Hall & Hne).
    destruct (split_on_nonempty "." q) as (w0 & ws0 & Eq).
    assert (Hne' : attrs <> []) by (apply Hne; by rewrite Eq).
    destruct (reduce_path_roundtrip m q attrs Hcolon Hall Hne') as [Hpath Hsplit].
    destruct (Nat.eqb cid self_id) eqn:Eid.
    + apply Nat.eqb_eq in Eid. specialize (Hcid Eid). subst c cid.
      eexists _, (RExisting (OCurry self_id self)), self.
      split; [|split; [|split; [reflexivity|split; [|split]]]].
      * unfold encode_curry. rewrite Hf. fold m q. rewrite Hnames, Himp, Hw, Hcf, same_object_refl,
          Nat.eqb_refl. reflexivity.
      * unfold decode_curry. cbn [st_func st_is_decorated]. rewrite Hpath, Himp, Hsplit, Hg.
        reflexivity.
      * intros tr v Hcall. exact (curry_call_bound self f args kw b tr v reg Hf Ha Hk Hcall).
      * intros cid' c' attrs' Hw'. rewrite Hw in Hw'. injection Hw' as -> ->.
        split; [reflexivity|]. intros []; reflexivity.
      * intros Hw'. rewrite Hw in Hw'. discriminate.
    + eexists _, (RNew cnew), cnew.
      split; [|split; [|split; [reflexivity|split; [|split]]]].
      * unfold encode_curry. rewrite Hf. fold m q. rewrite Hnames, Himp, Hw, Hcf, same_object_refl, Eid.
        reflexivity.
      * unfold decode_curry. cbn [st_func st_is_decorated]. rewrite Hpath, Himp, Hsplit, Hg. simpl.
        rewrite Hcf. unfold rewrap. cbn [st_args st_keywords st_userdict].
        rewrite Ha, Hk, Hwrap. reflexivity.
      * intros tr v Hcall. exact (curry_call_bound cnew f args kw b tr v reg
          eq_refl eq_refl eq_refl Hcall).
      * intros cid' c' attrs' Hw'. rewrite Hw in Hw'. injection Hw' as -> ->.
        split; [|reflexivity]. intros E. apply Nat.eqb_neq in Eid. contradiction.
      * intros Hw'. rewrite Hw in Hw'. discriminate.
  - destruct (walk_reduce_found _ _ _ _ _ Hw) as [Hg _].
    assert (Hglob : pickle_global fattrs ms f = Some (FRefGlobal m q)).
    { unfold pickle_global. fold m q. rewrite Himp, Hg, same_object_refl. reflexivity. }
    eexists _, (RNew cnew), cnew.
    split; [|split; [|split; [reflexivity|split; [|split]]]].
    + unfold encode_curry. rewrite Hf. fold m q. rewrite Hnames, Himp, Hw, Hglob. reflexivity.
    + unfold decode_curry. cbn [st_func st_is_decorated]. rewrite Himp, Hg. unfold rewrap.
      cbn [st_args st_keywords st_userdict]. rewrite Ha, Hk, Hwrap. reflexivity.
    + intros tr v Hcall. exact (curry_call_bound cnew f args kw b tr v reg
          eq_refl eq_refl eq_refl Hcall).
    + intros cid' c' attrs' Hw'. rewrite Hw in Hw'. discriminate.
    + intros _. reflexivity.
Qed.

(** Three layouts of the module [example]: the decorated [neg] (the module
    attribute is the pickled curry itself), [curry(add, 1)] next to
    [add = curry(add)], and [curry(Calc.add, 1)] reached through the curried
    class [Calc] (path [example:Calc.func.add]). *)
Lemma curry_pickle_roundtrip_witness :
  (exists st c',
     encode_curry calc_attrs example_modules 9 (curry_of py_neg) = Some st /\
     decode_curry calc_attrs example_modules st = Some (RExisting (OCurry 9 (curry_of py_neg))) /\
     restored_curry (RExisting (OCurry 9 (curry_of py_neg))) = Some c' /\
     snd (curry_dunder_call no_registry c' [VInt 5] ∅) = CRet (VInt (-5))) /\
  (exists st c',
     encode_curry calc_attrs example_modules 9 (mkCurry py_add [VInt 1] ∅ None None) = Some st /\
     decode_curry calc_attrs example_modules st = Some (RNew (mkCurry py_add [VInt 1] ∅ None None)) /\
     restored_curry (RNew (mkCurry py_add [VInt 1] ∅ None None)) = Some c' /\
     snd (curry_dunder_call no_registry c' [VInt 2] ∅) = CRet (VInt 3)) /\
  (exists st c',
     encode_curry calc_attrs example_modules 9 (mkCurry py_calc_add [VInt 1] ∅ None None) = Some st /\
     st_func st = FRefPath "example:Calc.func.add" /\
     decode_curry calc_attrs example_modules st =
       Some (RNew (mkCurry py_calc_add [VInt 1] ∅ None None)) /\
     restored_curry (RNew (mkCurry py_calc_add [VInt 1] ∅ None None)) = Some c' /\
     snd (curry_dunder_call no_registry c' [VInt 2] ∅) = CRet (VInt 3)).
Proof.
  split; [|split].
  - destruct (curry_pickle_roundtrip no_registry calc_attrs example_modules example_module 9
                (curry_of py_neg) py_neg [] ∅ (VInt 5) eq_refl eq_refl eq_refl eq_refl eq_refl
                ltac:(vm_compute; intros H; discriminate H) ltac:(vm_compute; intros H; discriminate H)
                ltac:(vm_compute; intros H; repeat (destruct H as [H|H]; [discriminate H|]); exact H) eq_refl
                ltac:(left; exists 9%nat, (curry_of py_neg), ["neg"%string];
                      split; [vm_compute; reflexivity|split; reflexivity]))
      as (st & r & c' & He & Hd & Hr & Hcall & Hcur & _).
    destruct (Hcur 9%nat (curry_of py_neg) ["neg"%string]) as [Hr9 _];
      [vm_compute; reflexivity|].
    specialize (Hr9 eq_refl). subst r.
    exists st, c'. split; [exact He|]. split; [exact Hd|]. split; [exact Hr|].
    apply (Hcall [12%nat]). vm_compute. reflexivity.
  - destruct (curry_pickle_roundtrip no_registry calc_attrs example_modules example_module 9
                (mkCurry py_add [VInt 1] ∅ None None) py_add [VInt 1] ∅ (VInt 2)
                eq_refl eq_refl eq_refl eq_refl eq_refl
                ltac:(vm_compute; intros H; discriminate H) ltac:(vm_compute; intros H; discriminate H)
                ltac:(vm_compute; intros H; repeat (destruct H as [H|H]; [discriminate H|]); exact H) eq_refl
                ltac:(left; exists 5%nat, (curry_of py_add), ["add"%string];
                      split; [vm_compute; reflexivity|split; [reflexivity|discriminate]]))
      as (st & r & c' & He & Hd & Hr & Hcall & Hcur & _).
    destruct (Hcur 5%nat (curry_of py_add) ["add"%string]) as [_ Hr5];
      [vm_compute; reflexivity|].
    rewrite (Hr5 ltac:(discriminate)) in Hd, Hr.
    exists st, c'. split; [exact He|]. split; [exact Hd|]. split; [exact Hr|].
    apply (Hcall [1%nat]). vm_compute. reflexivity.
  - destruct (curry_pickle_roundtrip no_registry calc_attrs example_modules example_module 9
                (mkCurry py_calc_add [VInt 1] ∅ None None) py_calc_add [VInt 1] ∅ (VInt 2)
                eq_refl eq_refl eq_refl eq_refl eq_refl
                ltac:(vm_compute; intros H; discriminate H) ltac:(vm_compute; intros H; discriminate H)
                ltac:(vm_compute; intros H; repeat (destruct H as [H|H]; [discriminate H|]); exact H)
                eq_refl
                ltac:(left; exists 6%nat, (curry_of py_calc_add),
                        ["Calc"%string; "func"%string; "add"%string];
                      split; [vm_compute; reflexivity|split; [reflexivity|discriminate]]))
      as (st & r & c' & He & Hd & Hr & Hcall & Hcur & _).
    destruct (Hcur 6%nat (curry_of py_calc_add) ["Calc"%string; "func"%string; "add"%string])
      as [_ Hr6]; [vm_compute; reflexivity|].
    rewrite (Hr6 ltac:(discriminate)) in Hd, Hr.
    exists st, c'. split; [exact He|]. split; [vm_compute in He; by injection He as <-|].
    split; [exact Hd|]. split; [exact Hr|].
    apply (Hcall [21%nat]). vm_compute. reflexivity.
Defined.

(** ** [is_arity] *)

Lemma forallb_required_props (s : signature) :
  forallb required_positional s = true ->
  has_var_positional s = false /\ has_keywords_of s = false /\ num_required_of s = length s.
Proof.
  induction s as [|p ps IH]; simpl; [auto|].
  intros H. apply andb_true_iff in H as [Hp Hps].
  destruct (IH Hps) as (H1 & H2 & H3).
  unfold num_required_of in *. simpl. rewrite Hp. simpl.
  rewrite H1, H2, H3. req_param p; auto.
Qed.

Lemma forallb_required_false (s : signature) :
  forallb required_positional s = false ->
  has_var_positional s || has_keywords_of s = true.
Proof.
  induction s as [|p ps IH]; simpl; [discriminate|].
  destruct (required_positional p) eqn:Hp; simpl.
  - intros H. apply IH in H.
    req_param p; exact H.
  - intros _. destruct p as [n k d]; unfold required_positional in Hp; simpl in *.
    destruct k, d; simpl in *; try discriminate; try reflexivity;
      rewrite ?orb_true_r; reflexivity.
Qed.

Lemma bind_req_only (partial : bool) (R : signature) (args : list V) (acc : arguments) :
  Forall (fun p => required_positional p = true) R ->
  is_Some (match bind_pos partial ∅ R args acc with
           | None => None
           | Some (rest, acc') => bind_kw partial rest ∅ None acc'
           end) <->
  (if partial then (length args <= length R)%nat else length args = length R).
Proof.
  revert args acc. induction R as [|p R IH]; intros args acc HR.
  - destruct args as [|a args]; simpl.
    + rewrite bool_decide_eq_true_2 by reflexivity. destruct partial; split; eauto; lia.
    + split; [intros [? Hx]; discriminate|]. destruct partial; simpl; lia.
  - inversion HR as [|? ? Hp HR']; subst.
    destruct args as [|a args'].
    + destruct partial.
      * destruct (bind_kw_true_empty (p :: R) None acc) as [r Hr].
        req_param p; rewrite ?in_kwargs_empty; simpl;
          (split; [lia|]; intros _; simpl in Hr; rewrite Hr; eauto).
      * req_param p; rewrite ?in_kwargs_empty; simpl;
          (split; [intros [? Hx]; discriminate|lia]).
    + req_param p; rewrite ?in_kwargs_empty; simpl; rewrite IH by exact HR';
        destruct partial; simpl; lia.
Qed.

(** ** [memoize] *)



Lemma mkey_eqb_refl (k : mkey) : mkey_eqb k k = true.
Proof.
  destruct k as [v|a d]; simpl; [apply py_eq_v_refl|].
  by rewrite py_eq_v_refl, py_eq_dict_refl.
Qed.

Lemma cache_lookup_store (c : memo_cache) (k : mkey) (v : V) :
  cache_lookup (cache_store c k v) k = Some v.
Proof.
  induction c as [|[k' v'] c IH]; simpl.
  - by rewrite mkey_eqb_refl.
  - destruct (mkey_eqb k' k) eqn:E; simpl; rewrite E; [reflexivity|exact IH].
Qed.

(** After a call that returns, any call with the same key is served from
    the cache. *)
Lemma memof_same_key_hit (str_hash : string -> Z) (m m' : memo) (args1 args2 : list V)
    (kw1 kw2 : kwdict) t v :
  m_key m args2 kw2 = m_key m args1 kw1 ->
  memof_call str_hash m args1 kw1 = (m', (t, ORet v)) ->
  memof_call str_hash m' args2 kw2 = (m', ([], ORet v)).
Proof.
  intros Hkey H. unfold memof_call in H |- *.
  destruct (m_key m args1 kw1) as [k|e] eqn:Hk; [|discriminate].
  destruct (mkey_hash str_hash k) eqn:Hh; [|discriminate].
  destruct (cache_lookup (m_cache m) k) eqn:Hl.
  - injection H as <- <- <-. rewrite Hkey, Hh, Hl. reflexivity.
  - destruct (call_obj (m_func m) args1 kw1) as [t0 [v0|e0]]; [|discriminate].
    injection H as <- <- <-. simpl. rewrite Hkey, Hh, cache_lookup_store. reflexivity.
Qed.

Lemma py_hash_tuple (str_hash : string -> Z) (l : list V) :
  py_hash_v str_hash (VTuple l) =
  match hash_items str_hash l with Some hs => Some (tuple_hash hs) | None => None end.
Proof. reflexivity. Qed.

Lemma memoize_key reg shk sia str_hash (f : pyfunc) (c : option memo_cache) :
  m_key (memoize reg shk sia str_hash f c None) = default_key str_hash (memo_keykind reg shk sia f).
Proof. reflexivity. Qed.

Lemma hash_kw_items_empty (str_hash : string -> Z) (kw : kwdict) :
  hash_kw_items str_hash (map_to_list kw) = None -> kw <> ∅.
Proof. intros H ->. rewrite map_to_list_empty in H. discriminate. Qed.

Lemma is_arity_sig reg shk sia (n : nat) (f : pyfunc) (s : signature) :
  is_arity reg shk sia n f (Some s) = Some (forallb required_positional s && Nat.eqb (length s) n).
Proof.
  unfold is_arity, has_varargs, has_keywords. simpl.
  destruct (forallb required_positional s) eqn:Hall.
  - destruct (forallb_required_props s Hall) as (H1 & H2 & H3).
    rewrite H1, H2, H3. simpl. by destruct (Nat.eqb (length s) n).
  - pose proof (forallb_required_false s Hall) as H.
    destruct (Nat.eqb (num_required_of s) n); [|reflexivity]. simpl.
    destruct (has_var_positional s), (has_keywords_of s); try discriminate; reflexivity.
Qed.

(** X1.  On a signature, [is_arity(n, func, sigspec)] is [True] exactly when
    every parameter is positional without a default and there are [n] of
    them, and [False] otherwise (never [None]). *)
Theorem is_arity_exact reg shk sia (n : nat) (f : pyfunc) (s : signature) :
  is_arity reg shk sia n f (Some s) = Some (forallb required_positional s && Nat.eqb (length s) n).
Proof. apply is_arity_sig. Qed.

(** X2.  When [is_arity(n, func, sigspec)] is [True], positional arguments
    alone are valid exactly when there are [n] of them, and a valid
    partial application exactly when there are at most [n]. *)
Theorem is_arity_binding reg shk sia (n : nat) (f : pyfunc) (s : signature) (args : list V) :
  is_arity reg shk sia n f (Some s) = Some true ->
  is_valid_args reg f args ∅ (Some s) = Some (Nat.eqb (length args) n) /\
  is_partial_args reg f args ∅ (Some s) = Some (Nat.leb (length args) n).
Proof.
  rewrite is_arity_sig. intros H. injection H as H.
  apply andb_true_iff in H as [Hall Hn]. apply Nat.eqb_eq in Hn.
  assert (HR : List.Forall (fun p => required_positional p = true) s).
  { apply List.Forall_forall. intros p Hp. rewrite forallb_forall in Hall. auto. }
  unfold is_valid_args, is_partial_args, sig_bind. simpl. split; f_equal.
  - destruct (Nat.eqb_spec (length args) n).
    + apply bool_decide_eq_true_2. apply (bind_req_only false s args ∅ HR). lia.
    + apply bool_decide_eq_false_2. rewrite (bind_req_only false s args ∅ HR). lia.
  - destruct (Nat.leb_spec (length args) n).
    + apply bool_decide_eq_true_2. apply (bind_req_only true s args ∅ HR). lia.
    + apply bool_decide_eq_false_2. rewrite (bind_req_only true s args ∅ HR). lia.
Qed.

Lemma is_arity_binding_witness :
  is_arity no_registry no_answer no_arity 2 py_add (Some [req "a"; req "b"]) = Some true /\
  is_valid_args no_registry py_add [VInt 1] ∅ (Some [req "a"; req "b"]) = Some false /\
  is_partial_args no_registry py_add [VInt 1] ∅ (Some [req "a"; req "b"]) = Some true.
Proof.
  split; [reflexivity|].
  apply (is_arity_binding no_registry no_answer no_arity 2 py_add [req "a"; req "b"] [VInt 1]).
  reflexivity.
Defined.

(** X3.  A call of a memoized function that returns leaves its result in the
    cache: the same call again returns it without running [func]. *)
Theorem memof_repeat_call_cached (str_hash : string -> Z) (m m' : memo) (args : list V)
    (kw : kwdict) t v :
  memof_call str_hash m args kw = (m', (t, ORet v)) ->
  memof_call str_hash m' args kw = (m', ([], ORet v)).
Proof. apply memof_same_key_hit. reflexivity. Qed.

Lemma memof_repeat_call_cached_witness :
  memof_call zero_hash (memo_of py_add) [VInt 1; VInt 2] ∅ =
    (fst (memof_call zero_hash (memo_of py_add) [VInt 1; VInt 2] ∅), ([1%nat], ORet (VInt 3))) /\
  memof_call zero_hash (fst (memof_call zero_hash (memo_of py_add) [VInt 1; VInt 2] ∅))
    [VInt 1; VInt 2] ∅ =
    (fst (memof_call zero_hash (memo_of py_add) [VInt 1; VInt 2] ∅), ([], ORet (VInt 3))).
Proof.
  split; [reflexivity|].
  apply (memof_repeat_call_cached zero_hash (memo_of py_add) _ [VInt 1; VInt 2] ∅ [1%nat]).
  reflexivity.
Defined.

(** X4.  For a function found to take no keyword arguments and not to be
    unary, the default key is the positional arguments alone: a call that
    differs from a cached one only in its keyword arguments returns the
    cached result without running [func]. *)
Theorem memo_args_key_ignores_keywords reg shk sia str_hash (f : pyfunc)
    (c : option memo_cache) (args : list V) (kw1 kw2 : kwdict) (m' : memo) t v :
  memo_keykind reg shk sia f = KeyArgs ->
  memof_call str_hash (memoize reg shk sia str_hash f c None) args kw1 = (m', (t, ORet v)) ->
  memof_call str_hash m' args kw2 = (m', ([], ORet v)).
Proof.
  intros Hk. apply memof_same_key_hit. rewrite memoize_key, Hk. reflexivity.
Qed.

Lemma memo_args_key_ignores_keywords_witness :
  memo_keykind no_registry no_answer no_arity py_add = KeyArgs /\
  memof_call zero_hash (memo_of py_add) [VInt 1] {["b" := VInt 2]} =
    (fst (memof_call zero_hash (memo_of py_add) [VInt 1] {["b" := VInt 2]}),
     ([1%nat], ORet (VInt 3))) /\
  memof_call zero_hash (fst (memof_call zero_hash (memo_of py_add) [VInt 1] {["b" := VInt 2]}))
    [VInt 1] {["b" := VInt 5]} =
    (fst (memof_call zero_hash (memo_of py_add) [VInt 1] {["b" := VInt 2]}), ([], ORet (VInt 3))).
Proof.
  split; [reflexivity|]. split; [reflexivity|].
  apply (memo_args_key_ignores_keywords no_registry no_answer no_arity zero_hash py_add None
           [VInt 1] {["b" := VInt 2]} _ _ [1%nat]); reflexivity.
Defined.

(** X5.  For a unary function the default key is the first positional
    argument alone: a call with the same first positional argument as a
    cached one returns the cached result without running [func], whatever
    the other arguments. *)
Theorem memo_unary_key_first_arg reg shk sia str_hash (f : pyfunc) (c : option memo_cache)
    (a : V) (args1 args2 : list V) (kw1 kw2 : kwdict) (m' : memo) t v :
  memo_keykind reg shk sia f = KeyUnary ->
  memof_call str_hash (memoize reg shk sia str_hash f c None) (a :: args1) kw1 = (m', (t, ORet v)) ->
  memof_call str_hash m' (a :: args2) kw2 = (m', ([], ORet v)).
Proof.
  intros Hk. apply memof_same_key_hit. rewrite memoize_key, Hk. reflexivity.
Qed.

Lemma memo_unary_key_first_arg_witness :
  memo_keykind no_registry no_answer no_arity py_identity = KeyUnary /\
  memof_call zero_hash (memo_of py_identity) [VInt 3] ∅ =
    (fst (memof_call zero_hash (memo_of py_identity) [VInt 3] ∅), ([identity_fid], ORet (VInt 3))) /\
  memof_call zero_hash (fst (memof_call zero_hash (memo_of py_identity) [VInt 3] ∅))
    [VInt 3; VInt 4] ∅ =
    (fst (memof_call zero_hash (memo_of py_identity) [VInt 3] ∅), ([], ORet (VInt 3))).
Proof.
  split; [reflexivity|]. split; [reflexivity|].
  apply (memo_unary_key_first_arg no_registry no_answer no_arity zero_hash py_identity None
           (VInt 3) [] [VInt 4] ∅ ∅ _ [identity_fid]); reflexivity.
Defined.

(** X6.  With a default key that is not the unary one, an unhashable
    positional argument (keyword values hashable) raises [TypeError]
    'Arguments to memoized function must be hashable' without running
    [func] and leaves the cache as it was. *)
Theorem memo_unhashable_args reg shk sia str_hash (f : pyfunc) (c : option memo_cache)
    (args : list V) (kw : kwdict) :
  memo_keykind reg shk sia f <> KeyUnary ->
  hash_items str_hash args = None ->
  is_Some (hash_kw_items str_hash (map_to_list kw)) ->
  memof_call str_hash (memoize reg shk sia str_hash f c None) args kw =
    (memoize reg shk sia str_hash f c None,
     ([], ORaise (TypeError "Arguments to memoized function must be hashable"))).
Proof.
  intros Hkind Hargs [hs Hkw]. unfold memof_call. rewrite memoize_key.
  assert (Ht : py_hash_v str_hash (VTuple args) = None)
    by (rewrite py_hash_tuple, Hargs; reflexivity).
  assert (Ha : args_or_none args = VTuple args)
    by (destruct args; [discriminate|reflexivity]).
  destruct (memo_keykind reg shk sia f); [congruence| |]; cbn [default_key].
  - destruct (bool_decide (kw = ∅)).
    + cbn [mkey_hash]. rewrite Ha, py_hash_tuple. cbn [hash_items]. rewrite Ht. reflexivity.
    + rewrite Hkw. cbn [mkey_hash]. rewrite Ha, Ht. reflexivity.
  - cbn [mkey_hash]. rewrite Ht. reflexivity.
Qed.

Lemma memo_unhashable_args_witness :
  memo_keykind no_registry no_answer no_arity py_add <> KeyUnary /\
  hash_items zero_hash [VList []; VInt 1] = None /\
  is_Some (hash_kw_items zero_hash (map_to_list (∅ : kwdict))) /\
  memof_call zero_hash (memo_of py_add) [VList []; VInt 1] ∅ =
    (memo_of py_add, ([], ORaise (TypeError "Arguments to memoized function must be hashable"))).
Proof.
  split; [discriminate|]. split; [reflexivity|]. split; [eexists; reflexivity|].
  apply (memo_unhashable_args no_registry no_answer no_arity zero_hash py_add None).
  - discriminate.
  - reflexivity.
  - eexists; reflexivity.
Defined.

(** X7.  With the default key of a function that may take keywords, an
    unhashable keyword value raises the [TypeError] of building the
    [frozenset] of the keyword items, not memoize's own message, without
    running [func] and with the cache unchanged. *)
Theorem memo_unhashable_keyword reg shk sia str_hash (f : pyfunc) (c : option memo_cache)
    (args : list V) (kw : kwdict) :
  memo_keykind reg shk sia f = KeyArgsKwargs ->
  hash_kw_items str_hash (map_to_list kw) = None ->
  memof_call str_hash (memoize reg shk sia str_hash f c None) args kw =
    (memoize reg shk sia str_hash f c None, ([], ORaise (TypeError "unhashable type"))).
Proof.
  intros Hkind Hkw. unfold memof_call. rewrite memoize_key, Hkind. cbn [default_key].
  rewrite bool_decide_eq_false_2 by (exact (hash_kw_items_empty str_hash kw Hkw)).
  rewrite Hkw. reflexivity.
Qed.

Lemma memo_unhashable_keyword_witness :
  memo_keykind no_registry no_answer no_arity py_keep = KeyArgsKwargs /\
  hash_kw_items zero_hash (map_to_list ({["b" := VList []]} : kwdict)) = None /\
  memof_call zero_hash (memo_of py_keep) [VInt 1] {["b" := VList []]} =
    (memo_of py_keep, ([], ORaise (TypeError "unhashable type"))).
Proof.
  split; [reflexivity|]. split; [reflexivity|].
  apply (memo_unhashable_keyword no_registry no_answer no_arity zero_hash py_keep None);
    reflexivity.
Defined.

(** X8.  A call of a memoized function that raises, for whatever reason,
    leaves the cache as it was. *)
Theorem memof_raise_keeps_cache (str_hash : string -> Z) (m m' : memo) (args : list V)
    (kw : kwdict) t e :
  memof_call str_hash m args kw = (m', (t, ORaise e)) -> m' = m.
Proof.
  unfold memof_call. destruct (m_key m args kw) as [k|e']; [|congruence].
  destruct (mkey_hash str_hash k); [|congruence].
  destruct (cache_lookup (m_cache m) k); [congruence|].
  destruct (call_obj (m_func m) args kw) as [t0 [v0|e0]]; congruence.
Qed.

Lemma memof_raise_keeps_cache_witness :
  memof_call zero_hash (memo_of py_add) [VInt 1] ∅ =
    (memo_of py_add, ([], ORaise (TypeError "arguments do not match the signature"))) /\
  memo_of py_add = memo_of py_add.
Proof.
  split; [reflexivity|].
  apply (memof_raise_keeps_cache zero_hash (memo_of py_add) (memo_of py_add) [VInt 1] ∅ []
           (TypeError "arguments do not match the signature")).
  reflexivity.
Defined.

(** X9.  On a cache miss with a hashable key, the memoized function's result
    is exactly [func]'s: what [func] returns, or the exception it raises
    (a [TypeError] from [func] is not replaced by memoize's message). *)
Theorem memof_miss_result (str_hash : string -> Z) (m : memo) (args : list V) (kw : kwdict)
    (k : mkey) :
  m_key m args kw = KeyOk k ->
  is_Some (mkey_hash str_hash k) ->
  cache_lookup (m_cache m) k = None ->
  snd (memof_call str_hash m args kw) = call_obj (m_func m) args kw.
Proof.
  intros Hk [h Hh] Hl. unfold memof_call. rewrite Hk, Hh, Hl.
  destruct (call_obj (m_func m) args kw) as [t [v|e]]; reflexivity.
Qed.

Lemma memof_miss_result_witness :
  snd (memof_call zero_hash (memo_of py_add) [VInt 1; VStr "x"] ∅) =
    ([1%nat], ORaise (TypeError "unsupported operand type(s) for +")).
Proof.
  rewrite (memof_miss_result zero_hash (memo_of py_add) [VInt 1; VStr "x"] ∅
             (MV (VTuple [VInt 1; VStr "x"]))).
  - reflexivity.
  - reflexivity.
  - eexists; reflexivity.
  - reflexivity.
Defined.

(** X10.  A memoized unary function called with no positional argument raises
    [IndexError] from its key ([args[0]]), even when its parameter is
    given by keyword, without running [func]. *)
Theorem memo_unary_no_positional reg shk sia str_hash (f : pyfunc) (c : option memo_cache)
    (kw : kwdict) :
  memo_keykind reg shk sia f = KeyUnary ->
  memof_call str_hash (memoize reg shk sia str_hash f c None) [] kw =
    (memoize reg shk sia str_hash f c None,
     ([], ORaise (OtherError "IndexError" "tuple index out of range"))).
Proof. intros H. unfold memof_call. rewrite memoize_key, H. reflexivity. Qed.

Lemma memo_unary_no_positional_witness :
  memo_keykind no_registry no_answer no_arity py_identity = KeyUnary /\
  memof_call zero_hash (memo_of py_identity) [] {["x" := VInt 3]} =
    (memo_of py_identity, ([], ORaise (OtherError "IndexError" "tuple index out of range"))).
Proof.
  split; [reflexivity|].
  apply (memo_unary_no_positional no_registry no_answer no_arity zero_hash py_identity None).
  reflexivity.
Defined.

(** ** [pipe], [compose], [compose_left] *)

(** X11.  Piping through [fs ++ gs] is piping through [fs], then, if that
    returned, piping its result through [gs]; an exception stops the pipe. *)
Theorem pipe_app (x : V) (fs gs : list pyfunc) :
  pipe x (fs ++ gs) =
  match pipe x fs with
  | (t, ORet y) => let (t', o') := pipe y gs in (t ++ t', o')
  | (t, ORaise e) => (t, ORaise e)
  end.
Proof.
  revert x. induction fs as [|f fs IH]; intros x; simpl.
  - by destruct (pipe x gs).
  - destruct (call_obj f [x] ∅) as [t [y|e]]; [|reflexivity].
    rewrite IH. destruct (pipe y fs) as [t1 [z|e]]; [|reflexivity].
    destruct (pipe z gs) as [t2 o2]. by rewrite app_assoc.
Qed.

Lemma compose_pipe_gen (fs : list pyfunc) (x : V) :
  exists c, compose fs = Some c /\
    snd (composed_call c [x] ∅) = snd (pipe x (rev fs)) /\
    (fs <> [] -> composed_call c [x] ∅ = pipe x (rev fs)).
Proof.
  destruct fs as [|f [|g fs']].
  - exists (CFn py_identity). split; [reflexivity|split; [reflexivity|]].
    intros H. by destruct H.
  - exists (CFn f). cbn [composed_call rev app].
    assert (E : call_obj f [x] ∅ = pipe x [f]).
    { simpl. destruct (call_obj f [x] ∅) as [t [y|e]]; [by rewrite app_nil_r|reflexivity]. }
    split; [reflexivity|split; [by rewrite E|intros _; exact E]].
  - unfold compose, Compose_init.
    destruct (rev (f :: g :: fs')) as [|h rest] eqn:E.
    { apply (f_equal (@length pyfunc)) in E. rewrite length_rev in E. discriminate. }
    exists (CCompose (mkCompose h rest)). split; [reflexivity|split; [reflexivity|intros _; reflexivity]].
Qed.

(** X12.  [compose] of the functions [fs], called on one value, gives what [pipe] gives through
    the functions from right to left, and [compose_left] of them what [pipe]
    gives through them left to right; with at least one function the
    functions run are the same too ([compose()] is [identity]). *)
Theorem compose_is_pipe (fs : list pyfunc) (x : V) :
  (exists c, compose fs = Some c /\
     snd (composed_call c [x] ∅) = snd (pipe x (rev fs)) /\
     (fs <> [] -> composed_call c [x] ∅ = pipe x (rev fs))) /\
  (exists c, compose_left fs = Some c /\
     snd (composed_call c [x] ∅) = snd (pipe x fs) /\
     (fs <> [] -> composed_call c [x] ∅ = pipe x fs)).
Proof.
  split; [apply compose_pipe_gen|].
  destruct (compose_pipe_gen (rev fs) x) as (c & Hc & H1 & H2).
  rewrite rev_involutive in H1, H2.
  exists c. split; [exact Hc|split; [exact H1|]].
  intros Hne. apply H2. intros Hr. apply Hne.
  by apply (f_equal (@rev pyfunc)) in Hr; rewrite rev_involutive in Hr.
Qed.

Lemma compose_is_pipe_witness :
  snd (pipe (VInt 1) [py_identity; py_identity]) = ORet (VInt 1) /\
  ((exists c, compose [py_identity; py_identity] = Some c /\
     snd (composed_call c [VInt 1] ∅) = snd (pipe (VInt 1) (rev [py_identity; py_identity])) /\
     ([py_identity; py_identity] <> [] ->
      composed_call c [VInt 1] ∅ = pipe (VInt 1) (rev [py_identity; py_identity]))) /\
   (exists c, compose_left [py_identity; py_identity] = Some c /\
     snd (composed_call c [VInt 1] ∅) = snd (pipe (VInt 1) [py_identity; py_identity]) /\
     ([py_identity; py_identity] <> [] ->
      composed_call c [VInt 1] ∅ = pipe (VInt 1) [py_identity; py_identity]))).
Proof. split; [reflexivity|]. apply (compose_is_pipe [py_identity; py_identity] (VInt 1)). Defined.

(** Calling a [Compose] object is [Compose.__call__] on its fields. *)
Lemma py_call_compose i f n r args kw :
  py_call (PCompose i f n r) args kw = compose_call (mkCompose f (n :: r)) args kw.
Proof. reflexivity. Qed.

(** Building a [Compose] from two or more functions gives a [PCompose] object's fields. *)
Lemma compose_fields (funcs : list pyfunc) (f g : pyfunc) :
  compose (funcs ++ [g; f]) =
    Some (CCompose (mkCompose f (g :: rev funcs))).
Proof.
  unfold compose. destruct funcs as [|h hs]; [reflexivity|].
  change ((h :: hs) ++ [g; f]) with (h :: (hs ++ [g; f])).
  destruct (hs ++ [g; f]) as [|x xs] eqn:E; [by destruct hs|].
  unfold Compose_init. rewrite <- E.
  replace (rev (h :: hs ++ [g; f])) with (f :: g :: rev hs ++ [h]).
  - reflexivity.
  - simpl. rewrite rev_app_distr. reflexivity.
Qed.




(** ** [thread_first], [thread_last] *)

Lemma reduce_forms_callables (ev : V -> form -> list nat * outcome) (x : V) (fs : list pyfunc) :
  (forall v f, py_callable f = true -> ev v (FFunc f) = call_obj f [v] ∅) ->
  List.Forall (fun f => py_callable f = true) fs ->
  reduce_forms ev x (map FFunc fs) = pipe x fs.
Proof.
  intros Hev Hfs. revert x. induction Hfs as [|f fs Hf _ IH]; intros x; [reflexivity|].
  simpl. rewrite (Hev x f Hf). destruct (call_obj f [x] ∅) as [t [y|e]]; [|reflexivity].
  by rewrite IH.
Qed.

(** X14.  Threading a value through callables only, [thread_first] and
    [thread_last] both give what [pipe] gives. *)
Theorem thread_callables_pipe (x : V) (fs : list pyfunc) :
  List.Forall (fun f => py_callable f = true) fs ->
  thread_first x (map FFunc fs) = pipe x fs /\ thread_last x (map FFunc fs) = pipe x fs.
Proof.
  intros H. split; apply reduce_forms_callables; auto;
    intros v f Hf; simpl; unfold call_obj; by rewrite Hf.
Qed.

Lemma thread_callables_pipe_witness :
  List.Forall (fun f => py_callable f = true) [py_identity; py_add] /\
  thread_first (VInt 1) (map FFunc [py_identity; py_add]) = pipe (VInt 1) [py_identity; py_add] /\
  thread_last (VInt 1) (map FFunc [py_identity; py_add]) = pipe (VInt 1) [py_identity; py_add].
Proof.
  split; [repeat constructor|].
  apply thread_callables_pipe. repeat constructor.
Defined.

Lemma reduce_forms_ext (ev1 ev2 : V -> form -> list nat * outcome) (x : V) (forms : list form) :
  List.Forall (fun fm => forall v, ev1 v fm = ev2 v fm) forms ->
  reduce_forms ev1 x forms = reduce_forms ev2 x forms.
Proof.
  intros H. revert x. induction H as [|fm fms Hfm _ IH]; intros x; [reflexivity|].
  simpl. rewrite Hfm. destruct (ev2 x fm) as [t [y|e]]; [|reflexivity]. by rewrite IH.
Qed.

(** X15.  [thread_first] and [thread_last] agree when no tuple form carries
    arguments besides its function. *)
Theorem thread_first_last_agree (x : V) (forms : list form) :
  List.Forall (fun fm => match fm with FTuple _ (_ :: _) => False | _ => True end) forms ->
  thread_first x forms = thread_last x forms.
Proof.
  intros H. apply reduce_forms_ext.
  eapply List.Forall_impl; [|exact H].
  intros [f|f [|a args]|] Hfm v; simpl; [reflexivity|reflexivity|contradiction|reflexivity].
Qed.

Lemma thread_first_last_agree_witness :
  thread_first (VInt 1) [FFunc py_identity; FTuple py_identity []; FEmpty] =
    thread_last (VInt 1) [FFunc py_identity; FTuple py_identity []; FEmpty].
Proof. apply thread_first_last_agree. repeat constructor. Defined.

(** ** [juxt] *)

Lemma juxt_results_all (fs : list pyfunc) (args : list V) (kw : kwdict)
    (tvs : list (list nat * V)) :
  List.Forall2 (fun f tv => call_obj f args kw = (fst tv, ORet (snd tv))) fs tvs ->
  juxt_results (map JFunc fs) args kw = (concat (map fst tvs), inl (map snd tvs)).
Proof.
  intros H. induction H as [|f [t v] fs tvs Hf _ IH]; [reflexivity|].
  simpl in *. rewrite Hf, IH. reflexivity.
Qed.

Lemma call_obj_ret_callable (f : pyfunc) (args : list V) (kw : kwdict) t v :
  call_obj f args kw = (t, ORet v) -> py_callable f = true.
Proof. unfold call_obj. destruct (py_callable f); [reflexivity|discriminate]. Qed.

(** X16.  When every function returns, [juxt] given the functions one by one or as one list keeps the
    same functions, and calling them runs each function once, in order,
    and returns the tuple of their results. *)
Theorem juxt_all_return (fs : list pyfunc) (args : list V) (kw : kwdict)
    (tvs : list (list nat * V)) :
  List.Forall2 (fun f tv => call_obj f args kw = (fst tv, ORet (snd tv))) fs tvs ->
  juxt_init (map JFunc fs) = Some (map JFunc fs) /\
  juxt_init [JSeq fs] = Some (map JFunc fs) /\
  juxt_call (map JFunc fs) args kw = (concat (map fst tvs), ORet (VTuple (map snd tvs))).
Proof.
  intros H. split; [|split].
  - destruct fs as [|f [|g fs]]; [reflexivity| |reflexivity].
    inversion H as [|? [t v] ? ? Hf]; subst. simpl.
    by rewrite (call_obj_ret_callable f args kw t v Hf).
  - reflexivity.
  - unfold juxt_call. by rewrite (juxt_results_all fs args kw tvs H).
Qed.

Lemma juxt_all_return_witness :
  juxt_init (map JFunc [py_identity; py_identity]) = Some (map JFunc [py_identity; py_identity]) /\
  juxt_init [JSeq [py_identity; py_identity]] = Some (map JFunc [py_identity; py_identity]) /\
  juxt_call (map JFunc [py_identity; py_identity]) [VInt 5] ∅ =
    (concat (map fst [([identity_fid], VInt 5); ([identity_fid], VInt 5)]),
     ORet (VTuple (map snd [([identity_fid], VInt 5); ([identity_fid], VInt 5)]))).
Proof. apply juxt_all_return. repeat constructor. Defined.

(** X17.  A call of [juxt] stops at the first function that raises: the
    functions before it have run, those after it do not, and the exception
    propagates. *)
Theorem juxt_stops_at_error (pre post : list pyfunc) (g : pyfunc) (args : list V)
    (kw : kwdict) (tvs : list (list nat * V)) (tg : list nat) (e : exn) :
  List.Forall2 (fun f tv => call_obj f args kw = (fst tv, ORet (snd tv))) pre tvs ->
  call_obj g args kw = (tg, ORaise e) ->
  juxt_call (map JFunc (pre ++ g :: post)) args kw = (concat (map fst tvs) ++ tg, ORaise e).
Proof.
  intros H Hg. unfold juxt_call.
  assert (juxt_results (map JFunc (pre ++ g :: post)) args kw =
          (concat (map fst tvs) ++ tg, inr e)) as ->; [|reflexivity].
  induction H as [|f [t v] fs tvs Hf _ IH].
  - simpl. by rewrite Hg.
  - simpl in *. rewrite Hf, IH. by rewrite app_assoc.
Qed.

Lemma juxt_stops_at_error_witness :
  juxt_call (map JFunc ([py_identity] ++ py_add :: [py_identity])) [VInt 5] ∅ =
    (concat (map fst [([identity_fid], VInt 5)]) ++ [],
     ORaise (TypeError "arguments do not match the signature")).
Proof. apply juxt_stops_at_error; repeat constructor. Defined.

(** ** [excepts] *)

(** X18.  A call of an [excepts] wrapper gives exactly what [func] gives, and
    runs no handler, when [func] returns or raises an exception that is not
    an instance of the listed classes. *)
Theorem excepts_passes_through (is_subclass : string -> string -> bool) (x : excepts_obj)
    (args : list V) (kw : kwdict) t o :
  call_obj (ex_func x) args kw = (t, o) ->
  (forall e, o = ORaise e -> exc_matches is_subclass (ex_exc x) e = false) ->
  excepts_call is_subclass x args kw = (t, o).
Proof.
  intros Hc Hm. unfold excepts_call. rewrite Hc.
  destruct o as [v|e]; [reflexivity|]. by rewrite (Hm e eq_refl).
Qed.

Lemma excepts_passes_through_witness :
  excepts_call same_class (excepts_init ["KeyError"%string] py_add None) [VInt 1] ∅ =
    ([], ORaise (TypeError "arguments do not match the signature")).
Proof.
  apply excepts_passes_through; [reflexivity|].
  intros e He. injection He as <-. reflexivity.
Defined.

(** X19.  Without a handler, an [excepts] wrapper whose [func] raises one of
    the listed exceptions runs [return_none] and returns [None]. *)
Theorem excepts_default_handler (is_subclass : string -> string -> bool) (exc : list string)
    (f : pyfunc) (args : list V) (kw : kwdict) t e :
  call_obj f args kw = (t, ORaise e) ->
  exc_matches is_subclass exc e = true ->
  excepts_call is_subclass (excepts_init exc f None) args kw = (t ++ [return_none_fid], ORet VNone).
Proof. intros Hc Hm. unfold excepts_call. simpl. by rewrite Hc, Hm. Qed.

Lemma excepts_default_handler_witness :
  excepts_call same_class (excepts_init ["TypeError"%string] py_add None) [VInt 1] ∅ =
    ([] ++ [return_none_fid], ORet VNone).
Proof. apply (excepts_default_handler same_class _ py_add [VInt 1] ∅ [] (TypeError "arguments do not match the signature")); reflexivity. Defined.

(** ** [curry.__signature__] *)

Lemma is_partial_args_sig reg (f : pyfunc) (args : list V) (kw : kwdict) (s : signature) :
  is_partial_args reg f args kw (Some s) = Some (bool_decide (is_Some (sig_bind true s args kw))).
Proof. reflexivity. Qed.

(** X20.  For a callable with a signature, [curry.__signature__] raises
    [TypeError] ('curry object has incorrect arguments') exactly when the
    curry's arguments and keywords do not bind partially to it. *)
Theorem curry_signature_type_error reg (self : curry) (s : signature) :
  inspect_signature (c_func self) = SigOk s ->
  curry_signature reg self = SigTypeError <->
  sig_bind true s (c_args self) (c_keywords self) = None.
Proof.
  intros Hs. unfold curry_signature. rewrite Hs, is_partial_args_sig.
  destruct (sig_bind true s (c_args self) (c_keywords self)) as [b|] eqn:Hb.
  - rewrite bool_decide_eq_true_2 by eauto. simpl.
    split; [|discriminate]. by destruct (sig_wf _).
  - rewrite bool_decide_eq_false_2 by (intros [? Hx]; discriminate). simpl. tauto.
Qed.

Lemma curry_signature_type_error_witness :
  inspect_signature (c_func (mkCurry py_add [VInt 1; VInt 2; VInt 3] ∅ None None)) =
    SigOk [req "a"; req "b"] /\
  (curry_signature no_registry (mkCurry py_add [VInt 1; VInt 2; VInt 3] ∅ None None) = SigTypeError
   <-> sig_bind true [req "a"; req "b"] [VInt 1; VInt 2; VInt 3] ∅ = None).
Proof.
  split; [reflexivity|].
  apply (curry_signature_type_error no_registry
           (mkCurry py_add [VInt 1; VInt 2; VInt 3] ∅ None None)).
  reflexivity.
Defined.

Lemma sig_wf_from_skipn (s : signature) :
  forall n top seen, sig_wf_from top seen s = true ->
  exists top' seen', sig_wf_from top' seen' (skipn n s) = true.
Proof.
  induction s as [|p ps IH]; intros [|n] top seen H; simpl; eauto.
  simpl in H.
  destruct (Nat.ltb (kind_rank (p_kind p)) top); [discriminate|].
  destruct (Nat.leb (kind_rank (p_kind p)) 1 && negb (p_has_default p) && seen);
    [discriminate|]. eauto.
Qed.

Lemma curry_params_wf (kw : kwdict) (ps : signature) :
  forall (kwonly : bool) (top : nat) (seen : bool) (t : nat) (seen' : bool),
  sig_wf_from top seen ps = true ->
  (t <= if kwonly then Nat.max 3 top else top)%nat ->
  sig_wf_from t seen' (curry_params kw kwonly ps) = true.
Proof.
  induction ps as [|p ps IH]; intros kwonly top seen t seen' H Ht; simpl; [reflexivity|].
  simpl in H.
  destruct (Nat.ltb_spec (kind_rank (p_kind p)) top) as [|Hr]; [discriminate|].
  destruct (Nat.leb (kind_rank (p_kind p)) 1 && negb (p_has_default p) && seen);
    [discriminate|].
  destruct p as [n k d]; simpl in *.
  destruct k; simpl in *.
  - destruct (in_kwargs n kw); simpl.
    + destruct (Nat.ltb_spec 3 t); [destruct kwonly; lia|].
      eapply IH; [exact H|]. lia.
    + destruct kwonly; simpl.
      * destruct (Nat.ltb_spec 3 t); [lia|]. eapply IH; [exact H|]. lia.
      * destruct (Nat.ltb_spec 0 t); [lia|]. eapply IH; [exact H|]. lia.
  - destruct (in_kwargs n kw); simpl.
    + destruct (Nat.ltb_spec 3 t); [destruct kwonly; lia|].
      eapply IH; [exact H|]. lia.
    + destruct kwonly; simpl.
      * destruct (Nat.ltb_spec 3 t); [lia|]. eapply IH; [exact H|]. lia.
      * destruct (Nat.ltb_spec 1 t); [lia|]. eapply IH; [exact H|]. lia.
  - destruct kwonly; simpl.
    + eapply IH; [exact H|]. lia.
    + destruct (Nat.ltb_spec 2 t); [lia|]. eapply IH; [exact H|]. lia.
  - destruct (in_kwargs n kw), kwonly; simpl;
      (destruct (Nat.ltb_spec 3 t); [lia|]); (eapply IH; [exact H|]); lia.
  - destruct (Nat.ltb_spec 4 t); [destruct kwonly; lia|].
    eapply IH; [exact H|]. destruct kwonly; lia.
Qed.

Lemma curry_params_not_required (kw : kwdict) (ps : signature) :
  forall kwonly, List.Forall (fun p => required_positional p = false) (curry_params kw kwonly ps).
Proof.
  induction ps as [|p ps IH]; intros kwonly; simpl; [constructor|].
  destruct p as [n k d]; simpl.
  destruct k; simpl; try (destruct (in_kwargs n kw)); try destruct kwonly;
    repeat constructor; auto.
Qed.

Lemma curry_params_keywords (kw : kwdict) (ps : signature) :
  forall kwonly, List.Forall (fun p => in_kwargs (p_name p) kw = true -> (2 <= kind_rank (p_kind p))%nat)
                   (curry_params kw kwonly ps).
Proof.
  induction ps as [|p ps IH]; intros kwonly; simpl; [constructor|].
  destruct (kind_eqb (p_kind p) VAR_KEYWORD) eqn:E1.
  { constructor; [|apply IH]. intros _.
    destruct p as [n [] d]; simpl in *; try discriminate; lia. }
  destruct (kind_eqb (p_kind p) VAR_POSITIONAL) eqn:E2.
  { destruct kwonly; [apply IH|]. constructor; [|apply IH]. intros _.
    destruct p as [n [] d]; simpl in *; try discriminate; lia. }
  destruct (in_kwargs (p_name p) kw) eqn:E3.
  - constructor; [|apply IH]. intros _. simpl. lia.
  - constructor; [|apply IH]. simpl. rewrite E3. discriminate.
Qed.

Lemma filter_none_required (s : signature) :
  List.Forall (fun p => required_positional p = false) s -> num_required_of s = 0%nat.
Proof.
  unfold num_required_of. intros H. induction H as [|p ps Hp _ IH]; simpl; [reflexivity|].
  by rewrite Hp.
Qed.

(** X21.  For a callable with a well-formed signature to which the curry's
    arguments and keywords bind partially, [curry.__signature__] returns a
    signature ([sig.replace] never raises): it is well formed, has no
    required positional parameter, and every parameter named in the
    curry's keywords is keyword-only (or variadic). *)
Theorem curry_signature_shape reg (self : curry) (s : signature) :
  inspect_signature (c_func self) = SigOk s ->
  sig_wf s = true ->
  is_Some (sig_bind true s (c_args self) (c_keywords self)) ->
  exists s', curry_signature reg self = SigOk s' /\
    sig_wf s' = true /\
    num_required_of s' = 0%nat /\
    List.Forall (fun p => in_kwargs (p_name p) (c_keywords self) = true ->
                          (2 <= kind_rank (p_kind p))%nat) s'.
Proof.
  intros Hs Hwf Hb. unfold curry_signature. rewrite Hs, is_partial_args_sig.
  rewrite bool_decide_eq_true_2 by exact Hb. simpl.
  destruct (sig_wf_from_skipn s (sig_skip s (length (c_args self))) 0 false Hwf)
    as (top & seen & Hsk).
  assert (Hw : sig_wf (curry_params (c_keywords self) false
                         (skipn (sig_skip s (length (c_args self))) s)) = true).
  { unfold sig_wf. eapply curry_params_wf; [exact Hsk|]. lia. }
  rewrite Hw. eexists. split; [reflexivity|].
  split; [exact Hw|]. split.
  - apply filter_none_required, curry_params_not_required.
  - apply curry_params_keywords.
Qed.

Lemma curry_signature_shape_witness :
  exists s', curry_signature no_registry (mkCurry py_add [] {["a" := VInt 1]} None None) = SigOk s' /\
    sig_wf s' = true /\ num_required_of s' = 0%nat /\
    List.Forall (fun p => in_kwargs (p_name p) {["a" := VInt 1]} = true ->
                          (2 <= kind_rank (p_kind p))%nat) s'.
Proof.
  assert (Hb : is_Some (sig_bind true [req "a"; req "b"] [] {["a" := VInt 1]}))
    by (eexists; vm_compute; reflexivity).
  exact (curry_signature_shape no_registry (mkCurry py_add [] {["a" := VInt 1]} None None)
           [req "a"; req "b"] eq_refl eq_refl Hb).
Defined.
